(** * Inventory ledger (inventory_system.py): model and verification

    The module keeps a dictionary from item names to integer quantities,
    updates it in place, scans it for low stock and stores it as a JSON
    document.  The Python functions are embedded as computations in a small
    state-and-exception monad; dictionaries are association lists in
    insertion order, strings are sequences of Unicode code points, files are
    sequences of bytes. *)

From Stdlib Require Import List ZArith NArith Lia Bool String Ascii.
From Stdlib Require Import Strings.Byte.
From Stdlib Require DecimalFacts DecimalPos DecimalZ.
Import ListNotations.
Local Open Scope Z_scope.

(* ================================================================== *)
(** * Python values *)

(** A Python [str] is a sequence of code points. *)
Abbreviation codepoint := N (only parsing).
Abbreviation str := (list N) (only parsing).

Definition str_of (s : string) : str :=
  map N_of_ascii (list_ascii_of_string s).

Definition str_eq_dec : forall a b : str, {a = b} + {a <> b} :=
  list_eq_dec N.eq_dec.

(** Ordered dictionaries with [str] keys, as CPython keeps them: iteration
    follows insertion order, assigning to a key that is present keeps its
    position, a new key goes last. *)
Definition dict (V : Type) := list (str * V).

(** The values the program handles: the arguments of the mutators before
    validation and whatever [json.load] produces.  Binary floating point is
    not modelled, a float keeps the literal it was read from. *)
#[warnings="-register-all"]
Inductive pyval :=
| PyNone
| PyBool (b : bool)
| PyInt (z : Z)
| PyFloat (lit : str)
| PyStr (s : str)
| PyList (l : list pyval)
| PyDict (d : dict pyval).

(** [isinstance(v, str)] *)
Definition isinstance_str (v : pyval) : bool :=
  match v with PyStr _ => true | _ => false end.

(** [isinstance(v, int)]; [bool] is a subclass of [int]. *)
Definition isinstance_int (v : pyval) : bool :=
  match v with PyInt _ | PyBool _ => true | _ => false end.

(** [isinstance(v, dict)] *)
Definition isinstance_dict (v : pyval) : bool :=
  match v with PyDict _ => true | _ => false end.

(** The integer an [int] instance stands for ([True] is 1, [False] is 0). *)
Definition int_value (v : pyval) : option Z :=
  match v with
  | PyInt z => Some z
  | PyBool b => Some (if b then 1 else 0)
  | _ => None
  end.

(** [not isinstance(item, str) or not item]: the right operand is only
    evaluated on a string, whose truth value is non-emptiness. *)
Definition invalid_item (item : pyval) : bool :=
  negb (isinstance_str item) ||
  match item with
  | PyStr [] => true
  | _ => false
  end.

(* ================================================================== *)
(** * Dictionary operations *)

Section DictOps.
Context {V : Type}.

(** [k in d] / [d.get(k)] *)
Fixpoint dict_get (d : dict V) (k : str) : option V :=
  match d with
  | [] => None
  | (k', v) :: d' => if str_eq_dec k k' then Some v else dict_get d' k
  end.

(** [d[k] = v] *)
Fixpoint dict_set (d : dict V) (k : str) (v : V) : dict V :=
  match d with
  | [] => [(k, v)]
  | (k', v') :: d' =>
      if str_eq_dec k k' then (k', v) :: d' else (k', v') :: dict_set d' k v
  end.

(** [del d[k]] on a key that is present *)
Definition dict_del (d : dict V) (k : str) : dict V :=
  filter (fun e => if str_eq_dec k (fst e) then false else true) d.

Definition dict_keys (d : dict V) : list str := map fst d.
End DictOps.

(* ================================================================== *)
(** * Files *)

Abbreviation path := (list N) (only parsing).

(** What a path names.  A missing file can be created only when its
    directory exists and is writable. *)
Inductive fs_entry :=
| Absent (creatable : bool)
| Regular (content : list byte) (readable writable : bool)
| Directory.

Definition filesystem := path -> fs_entry.

Definition fs_update (fs : filesystem) (p : path) (e : fs_entry) : filesystem :=
  fun q => if str_eq_dec q p then e else fs q.

(* ================================================================== *)
(** * Exceptions, log records and the monad *)

Inductive exn :=
| KeyError (k : str)
| TypeError
| FileNotFoundError
| PermissionError
| IsADirectoryError
| UnicodeDecodeError
| UnicodeEncodeError
| JSONDecodeError
| RecursionError.

(** [except KeyError] *)
Definition is_KeyError (e : exn) : bool :=
  match e with KeyError _ => true | _ => false end.

(** [except IOError]: [IOError] is [OSError], the base class of the
    exceptions [open] raises. *)
Definition is_IOError (e : exn) : bool :=
  match e with
  | FileNotFoundError | PermissionError | IsADirectoryError => true
  | _ => false
  end.

(** [except FileNotFoundError] *)
Definition is_FileNotFoundError (e : exn) : bool :=
  match e with FileNotFoundError => true | _ => false end.

(** [except json.JSONDecodeError]; it derives from [ValueError], as
    [UnicodeDecodeError] does, and they are unrelated to each other. *)
Definition is_JSONDecodeError (e : exn) : bool :=
  match e with JSONDecodeError => true | _ => false end.

Inductive level := INFO | WARNING | ERROR.

(** One constructor per format string of the module, with its arguments. *)
Inductive message :=
| MsgInvalidItem (item : pyval)
| MsgInvalidQty (qty : pyval)
| MsgAdded (qty : Z) (item : str) (total : Z)
| MsgRemovedGone (qty : Z) (item : str)
| MsgRemoved (qty : Z) (item : str) (total : Z)
| MsgNotInStock (item : str)
| MsgInvalidFormat (file : path)
| MsgNotFound (file : path)
| MsgDecodeError (file : path)
| MsgSaved (file : path)
| MsgWriteFailed (file : path) (e : exn).

Definition log_record := (level * message)%type.

(** The caller's dictionary (passed by reference to every function), the
    records handed to [logging], and the file system. *)
Record state := mkState {
  st_stock : dict Z;
  st_log : list log_record;
  st_fs : filesystem
}.

Inductive result (A : Type) :=
| Ret (a : A)
| Raise (e : exn).
Arguments Ret {A} a.
Arguments Raise {A} e.

Definition M (A : Type) := state -> result A * state.

Definition ret {A} (a : A) : M A := fun s => (Ret a, s).

Definition raise {A} (e : exn) : M A := fun s => (Raise e, s).

Definition bind {A B} (m : M A) (f : A -> M B) : M B :=
  fun s =>
    match m s with
    | (Ret a, s') => f a s'
    | (Raise e, s') => (Raise e, s')
    end.

Declare Scope py_scope.
Delimit Scope py_scope with py.
Notation "x <- c1 ;; c2" := (bind c1 (fun x => c2))
  (at level 61, c1 at next level, right associativity) : py_scope.
Notation "c1 ;; c2" := (bind c1 (fun _ => c2))
  (at level 61, right associativity) : py_scope.
Local Open Scope py_scope.

(** [try: body except C1: h1 except C2: h2 ...]: the first clause whose class
    matches handles the exception; what the body did to the state before
    raising stays done. *)
Fixpoint handle {A} (clauses : list ((exn -> bool) * (exn -> M A))) (e : exn)
  : M A :=
  match clauses with
  | [] => raise e
  | (cls, h) :: rest => if cls e then h e else handle rest e
  end.

Definition try_except {A} (body : M A)
  (clauses : list ((exn -> bool) * (exn -> M A))) : M A :=
  fun s =>
    match body s with
    | (Ret a, s') => (Ret a, s')
    | (Raise e, s') => handle clauses e s'
    end.

(** [logging.info], [logging.warning], [logging.error] *)
Definition logging (lv : level) (m : message) : M unit :=
  fun s => (Ret tt, mkState (st_stock s) (st_log s ++ [(lv, m)]) (st_fs s)).

(** [stock.get(k, default)] *)
Definition stock_get (k : str) (default : Z) : M Z :=
  fun s =>
    (Ret (match dict_get (st_stock s) k with Some v => v | None => default end),
     s).

(** [stock[k]] *)
Definition stock_getitem (k : str) : M Z :=
  fun s =>
    match dict_get (st_stock s) k with
    | Some v => (Ret v, s)
    | None => (Raise (KeyError k), s)
    end.

(** [stock[k] = v] *)
Definition stock_setitem (k : str) (v : Z) : M unit :=
  fun s => (Ret tt, mkState (dict_set (st_stock s) k v) (st_log s) (st_fs s)).

(** [del stock[k]] *)
Definition stock_delitem (k : str) : M unit :=
  fun s =>
    match dict_get (st_stock s) k with
    | Some _ =>
        (Ret tt, mkState (dict_del (st_stock s) k) (st_log s) (st_fs s))
    | None => (Raise (KeyError k), s)
    end.

(** [stock.items()] *)
Definition stock_items : M (list (str * Z)) :=
  fun s => (Ret (st_stock s), s).

(** Past the two guards the arguments are a string and an integer; the
    dictionary access and the arithmetic would raise [TypeError] on anything
    else. *)
Definition as_key (item : pyval) : M str :=
  match item with
  | PyStr name => ret name
  | _ => raise TypeError
  end.

Definition as_int (qty : pyval) : M Z :=
  match int_value qty with
  | Some q => ret q
  | None => raise TypeError
  end.

(* ================================================================== *)
(** * The store: mutators and accessors *)

Definition add_item (item qty : pyval) : M unit :=
  if invalid_item item then
    logging ERROR (MsgInvalidItem item)
  else if negb (isinstance_int qty) then
    logging ERROR (MsgInvalidQty qty)
  else
    name <- as_key item ;;
    q <- as_int qty ;;
    old <- stock_get name 0 ;;
    stock_setitem name (old + q) ;;
    total <- stock_getitem name ;;
    logging INFO (MsgAdded q name total).

Definition remove_item (item qty : pyval) : M unit :=
  if invalid_item item then
    logging ERROR (MsgInvalidItem item)
  else if negb (isinstance_int qty) then
    logging ERROR (MsgInvalidQty qty)
  else
    try_except
      (name <- as_key item ;;
       q <- as_int qty ;;
       old <- stock_getitem name ;;
       stock_setitem name (old - q) ;;
       now <- stock_getitem name ;;
       if now <=? 0 then
         stock_delitem name ;;
         logging INFO (MsgRemovedGone q name)
       else
         total <- stock_getitem name ;;
         logging INFO (MsgRemoved q name total))
      [(is_KeyError,
        fun _ => name <- as_key item ;; logging WARNING (MsgNotInStock name))].

(** The quantity on hand, an item that is not in the dictionary counting
    as 0. *)
Definition quantity (d : dict Z) (k : str) : Z :=
  match dict_get d k with
  | Some v => v
  | None => 0
  end.

Definition get_qty (item : str) : M Z :=
  stock_get item 0.

Definition check_low_items_default_threshold : Z := 5.

(** The optional argument is [None] when the caller leaves it out. *)
Definition check_low_items (threshold : option Z) : M (list str) :=
  let threshold :=
    match threshold with
    | Some t => t
    | None => check_low_items_default_threshold
    end in
  items <- stock_items ;;
  ret (fold_left
         (fun result e => if snd e <? threshold then result ++ [fst e] else result)
         items []).

(* ================================================================== *)
(** * Text files: UTF-8 and newlines *)

Definition byte_of (n : N) : byte :=
  match Byte.of_N n with
  | Some b => b
  | None => x00
  end.

Definition is_surrogate (c : codepoint) : bool :=
  (0xD800 <=? c)%N && (c <=? 0xDFFF)%N.

(** What the text layer writes for one code point; surrogates and values
    past U+10FFFF have no UTF-8 form ([UnicodeEncodeError]). *)
Definition utf8_encode_char (c : codepoint) : option (list byte) :=
  (if c <? 0x80 then Some [byte_of c]
   else if c <? 0x800 then
     Some [byte_of (0xC0 + c / 64); byte_of (0x80 + c mod 64)]
   else if c <? 0x10000 then
     if is_surrogate c then None
     else Some [byte_of (0xE0 + c / 4096); byte_of (0x80 + (c / 64) mod 64);
                byte_of (0x80 + c mod 64)]
   else if c <=? 0x10FFFF then
     Some [byte_of (0xF0 + c / 262144); byte_of (0x80 + (c / 4096) mod 64);
           byte_of (0x80 + (c / 64) mod 64); byte_of (0x80 + c mod 64)]
   else None)%N.

Fixpoint utf8_encode (s : str) : option (list byte) :=
  match s with
  | [] => Some []
  | c :: s' =>
      match utf8_encode_char c, utf8_encode s' with
      | Some bs, Some bs' => Some (bs ++ bs')
      | _, _ => None
      end
  end.

Definition in_range (lo hi x : N) : bool := (lo <=? x)%N && (x <=? hi)%N.

Definition push_char (c : codepoint) (r : option str) : option str :=
  match r with
  | Some s => Some (c :: s)
  | None => None
  end.

(** The strict decoder: well-formed sequences only, no overlong forms, no
    surrogates, nothing past U+10FFFF. *)
Fixpoint utf8_decode (bs : list byte) : option str :=
  match bs with
  | [] => Some []
  | b0 :: r0 =>
      let x0 := Byte.to_N b0 in
      if (x0 <? 0x80)%N then push_char x0 (utf8_decode r0)
      else
        match r0 with
        | [] => None
        | b1 :: r1 =>
            let x1 := Byte.to_N b1 in
            if in_range 0xC2 0xDF x0 then
              if in_range 0x80 0xBF x1 then
                push_char ((x0 - 0xC0) * 64 + (x1 - 0x80))%N (utf8_decode r1)
              else None
            else
              match r1 with
              | [] => None
              | b2 :: r2 =>
                  let x2 := Byte.to_N b2 in
                  if in_range 0xE0 0xEF x0 then
                    if in_range
                         (if (x0 =? 0xE0)%N then 0xA0 else 0x80)
                         (if (x0 =? 0xED)%N then 0x9F else 0xBF) x1
                       && in_range 0x80 0xBF x2
                    then
                      push_char
                        ((x0 - 0xE0) * 4096 + (x1 - 0x80) * 64 + (x2 - 0x80))%N
                        (utf8_decode r2)
                    else None
                  else
                    match r2 with
                    | [] => None
                    | b3 :: r3 =>
                        let x3 := Byte.to_N b3 in
                        if in_range 0xF0 0xF4 x0
                           && in_range
                                (if (x0 =? 0xF0)%N then 0x90 else 0x80)
                                (if (x0 =? 0xF4)%N then 0x8F else 0xBF) x1
                           && in_range 0x80 0xBF x2
                           && in_range 0x80 0xBF x3
                        then
                          push_char
                            ((x0 - 0xF0) * 262144 + (x1 - 0x80) * 4096
                             + (x2 - 0x80) * 64 + (x3 - 0x80))%N
                            (utf8_decode r3)
                        else None
                    end
              end
        end
  end.

(** Reading in text mode turns [\r\n] and a lone [\r] into [\n]. *)
Fixpoint translate_newlines (s : str) : str :=
  match s with
  | [] => []
  | c :: s' =>
      if (c =? 13)%N then
        10%N :: match s' with
                | [] => []
                | c' :: s'' =>
                    if (c' =? 10)%N then translate_newlines s''
                    else translate_newlines s'
                end
      else c :: translate_newlines s'
  end.

(* ================================================================== *)
(** * The [json] module, as far as the program uses it *)

(** ** [json.dump(stock, f, indent=4)] *)

(** One digit of ['{0:04x}'.format(n)] *)
Definition hex_digit (n : N) : codepoint :=
  (if n <? 10 then 48 + n else 87 + n)%N.

(** ['\\u{0:04x}'.format(n)] *)
Definition u_escape (n : N) : str :=
  [92; 117;
   hex_digit (N.land (N.shiftr n 12) 15); hex_digit (N.land (N.shiftr n 8) 15);
   hex_digit (N.land (N.shiftr n 4) 15); hex_digit (N.land n 15)]%N.

(** The replacement [encode_basestring_ascii] makes for one character:
    the short escapes, the character itself from space to tilde, a [\u]
    escape otherwise, two of them (a surrogate pair) past U+FFFF. *)
Definition escape_char (c : codepoint) : str :=
  (if c =? 34 then [92; 34]
   else if c =? 92 then [92; 92]
   else if c =? 8 then [92; 98]
   else if c =? 12 then [92; 102]
   else if c =? 10 then [92; 110]
   else if c =? 13 then [92; 114]
   else if c =? 9 then [92; 116]
   else if (32 <=? c) && (c <=? 126) then [c]
   else if c <? 0x10000 then u_escape c
   else
     let n := c - 0x10000 in
     u_escape (N.lor 0xD800 (N.land (N.shiftr n 10) 0x3FF))
     ++ u_escape (N.lor 0xDC00 (N.land n 0x3FF)))%N.

Definition encode_basestring_ascii (s : str) : str :=
  (34 :: flat_map escape_char s ++ [34])%N.

Fixpoint digits (u : Decimal.uint) : str :=
  match u with
  | Decimal.Nil => []
  | Decimal.D0 u => 48 :: digits u
  | Decimal.D1 u => 49 :: digits u
  | Decimal.D2 u => 50 :: digits u
  | Decimal.D3 u => 51 :: digits u
  | Decimal.D4 u => 52 :: digits u
  | Decimal.D5 u => 53 :: digits u
  | Decimal.D6 u => 54 :: digits u
  | Decimal.D7 u => 55 :: digits u
  | Decimal.D8 u => 56 :: digits u
  | Decimal.D9 u => 57 :: digits u
  end%N.

(** [int.__repr__]: decimal digits, a minus sign before them for a
    negative number.  Integers are unbounded, and the limit recent
    interpreters put on the number of digits of such a conversion is left
    out. *)
Definition int_repr (z : Z) : str :=
  match Z.to_int z with
  | Decimal.Pos u => digits u
  | Decimal.Neg u => 45%N :: digits u
  end.

(** The chunks the encoder yields for the entries of a dictionary at
    nesting level 1 with [indent=4]: the separator is a comma, a newline
    and four spaces, key and value are parted by a colon and a space. *)
Fixpoint encode_items (first : bool) (items : list (str * Z)) : str :=
  match items with
  | [] => []
  | (key, value) :: items' =>
      (if first then [] else [44; 10; 32; 32; 32; 32])%N
      ++ encode_basestring_ascii key ++ [58; 32]%N ++ int_repr value
      ++ encode_items false items'
  end.

Definition json_dumps (d : dict Z) : str :=
  match d with
  | [] => [123; 125]%N
  | _ => ([123; 10; 32; 32; 32; 32] ++ encode_items true d ++ [10; 125])%N
  end.

(** ** [json.load(f)] *)

Inductive parsed (A : Type) :=
| Parsed (a : A) (rest : str)
| Malformed
| OutOfFuel.
Arguments Parsed {A} a rest.
Arguments Malformed {A}.
Arguments OutOfFuel {A}.

Definition parsed_map {A B} (f : A -> B) (r : parsed A) : parsed B :=
  match r with
  | Parsed a rest => Parsed (f a) rest
  | Malformed => Malformed
  | OutOfFuel => OutOfFuel
  end.

Definition is_ws (c : codepoint) : bool :=
  ((c =? 32) || (c =? 9) || (c =? 10) || (c =? 13))%N.

Fixpoint skip_ws (s : str) : str :=
  match s with
  | [] => []
  | c :: s' => if is_ws c then skip_ws s' else s
  end.

Definition hex_value (c : codepoint) : option N :=
  (if in_range 48 57 c then Some (c - 48)
   else if in_range 97 102 c then Some (c - 87)
   else if in_range 65 70 c then Some (c - 55)
   else None)%N.

Definition hex4 (a b c d : codepoint) : option N :=
  match hex_value a, hex_value b, hex_value c, hex_value d with
  | Some x, Some y, Some z, Some w => Some (((x * 16 + y) * 16 + z) * 16 + w)%N
  | _, _, _, _ => None
  end.

(** The character a one-letter escape stands for. *)
Definition backslash (e : codepoint) : option codepoint :=
  (if e =? 34 then Some 34
   else if e =? 92 then Some 92
   else if e =? 47 then Some 47
   else if e =? 98 then Some 8
   else if e =? 102 then Some 12
   else if e =? 110 then Some 10
   else if e =? 114 then Some 13
   else if e =? 116 then Some 9
   else None)%N.

Definition is_high_surrogate (c : codepoint) : bool := in_range 0xD800 0xDBFF c.
Definition is_low_surrogate (c : codepoint) : bool := in_range 0xDC00 0xDFFF c.

Definition join_surrogates (hi lo : codepoint) : codepoint :=
  (0x10000 + N.lor (N.shiftl (hi - 0xD800) 10) (lo - 0xDC00))%N.

(** [scanstring], strict, from just after the opening quote: the decoded
    string and the text after the closing quote. *)
Fixpoint scanstring (s : str) : parsed str :=
  match s with
  | [] => Malformed
  | c :: s1 =>
      if (c =? 34)%N then Parsed [] s1
      else if (c =? 92)%N then
        match s1 with
        | [] => Malformed
        | e :: s2 =>
            if (e =? 117)%N then
              match s2 with
              | h1 :: h2 :: h3 :: h4 :: s3 =>
                  match hex4 h1 h2 h3 h4 with
                  | None => Malformed
                  | Some uni =>
                      match s3 with
                      | b :: u :: g1 :: g2 :: g3 :: g4 :: s4 =>
                          if is_high_surrogate uni && (b =? 92)%N && (u =? 117)%N
                          then
                            match hex4 g1 g2 g3 g4 with
                            | None => Malformed
                            | Some uni2 =>
                                if is_low_surrogate uni2 then
                                  parsed_map (cons (join_surrogates uni uni2))
                                    (scanstring s4)
                                else parsed_map (cons uni) (scanstring s3)
                            end
                          else parsed_map (cons uni) (scanstring s3)
                      | _ => parsed_map (cons uni) (scanstring s3)
                      end
                  end
              | _ => Malformed
              end
            else
              match backslash e with
              | Some ch => parsed_map (cons ch) (scanstring s2)
              | None => Malformed
              end
        end
      else if (c <? 32)%N then Malformed
      else parsed_map (cons c) (scanstring s1)
  end.

Definition is_digit (c : codepoint) : bool := in_range 48 57 c.

Fixpoint span_digits (s : str) : str * str :=
  match s with
  | [] => ([], [])
  | c :: s' =>
      if is_digit c then
        let (ds, rest) := span_digits s' in (c :: ds, rest)
      else ([], s)
  end.

Definition decimal_digit (c : codepoint) (u : Decimal.uint) : Decimal.uint :=
  match (c - 48)%N with
  | 0 => Decimal.D0 u
  | 1 => Decimal.D1 u
  | 2 => Decimal.D2 u
  | 3 => Decimal.D3 u
  | 4 => Decimal.D4 u
  | 5 => Decimal.D5 u
  | 6 => Decimal.D6 u
  | 7 => Decimal.D7 u
  | 8 => Decimal.D8 u
  | _ => Decimal.D9 u
  end%N.

(** [int(text)] on an optional minus sign and decimal digits *)
Definition int_of_text (negative : bool) (ds : str) : Z :=
  let u := fold_right decimal_digit Decimal.Nil ds in
  Z.of_int (if negative then Decimal.Neg u else Decimal.Pos u).

(** The integer part: one digit 0, or a digit from 1 to 9 and all the
    digits after it. *)
Definition scan_integer (s : str) : option (str * str) :=
  match s with
  | [] => None
  | c :: s1 =>
      if in_range 49 57 c then
        let (ds, rest) := span_digits s1 in Some (c :: ds, rest)
      else if (c =? 48)%N then Some ([c], s1)
      else None
  end.

(** The fraction, read only when a digit follows the dot. *)
Definition scan_fraction (r : str) : str * str :=
  match r with
  | dot :: d :: r' =>
      if (dot =? 46)%N && is_digit d then
        let (fs, rest) := span_digits r' in (dot :: d :: fs, rest)
      else ([], r)
  | _ => ([], r)
  end.

(** The exponent, given up when no digit follows the letter and the
    sign. *)
Definition scan_exponent (r : str) : str * str :=
  match r with
  | e :: r' =>
      if ((e =? 101) || (e =? 69))%N then
        let (sign, r'') :=
          match r' with
          | sg :: r3 =>
              if ((sg =? 45) || (sg =? 43))%N then ([sg], r3) else ([], r')
          | [] => ([], r')
          end in
        let (es, rest) := span_digits r'' in
        match es with
        | [] => ([], r)
        | _ => (e :: sign ++ es, rest)
        end
      else ([], r)
  | [] => ([], r)
  end.

(** The number at the head of the text, if there is one: a minus sign, the
    integer part, a fraction, an exponent.  An integer part alone is an
    [int], anything more a [float]. *)
Definition match_number (s : str) : option (pyval * str) :=
  let (negative, s0) :=
    match s with
    | c :: s' => if (c =? 45)%N then (true, s') else (false, s)
    | [] => (false, s)
    end in
  match scan_integer s0 with
  | None => None
  | Some (ds, r) =>
      let (frac, r1) := scan_fraction r in
      let (exp, r2) := scan_exponent r1 in
      match frac, exp with
      | [], [] => Some (PyInt (int_of_text negative ds), r2)
      | _, _ =>
          Some (PyFloat ((if negative then [45%N] else []) ++ ds ++ frac ++ exp),
                r2)
      end
  end.

(** [s.startswith(word)], giving what follows the word *)
Fixpoint strip_prefix (word s : str) : option str :=
  match word, s with
  | [], _ => Some s
  | w :: word', c :: s' => if (w =? c)%N then strip_prefix word' s' else None
  | _ :: _, [] => None
  end.

(** The scanner.  Each call that descends or moves on to the next member
    takes one unit of fuel; [json_loads] gives it more than twice the length
    of the text, which is never used up. *)
Fixpoint scan_once (fuel : nat) (s : str) : parsed pyval :=
  match fuel with
  | O => OutOfFuel
  | S fuel =>
      match s with
      | [] => Malformed
      | c :: s1 =>
          if (c =? 34)%N then parsed_map PyStr (scanstring s1)
          else if (c =? 123)%N then
            match skip_ws s1 with
            | c' :: s2 =>
                if (c' =? 125)%N then Parsed (PyDict []) s2
                else parse_members fuel [] (c' :: s2)
            | [] => Malformed
            end
          else if (c =? 91)%N then
            match skip_ws s1 with
            | c' :: s2 =>
                if (c' =? 93)%N then Parsed (PyList []) s2
                else parse_elements fuel [] (c' :: s2)
            | [] => Malformed
            end
          else
            match
              (if (c =? 110)%N then strip_prefix (str_of "null") s
               else None),
              (if (c =? 116)%N then strip_prefix (str_of "true") s
               else None),
              (if (c =? 102)%N then strip_prefix (str_of "false") s
               else None),
              (if (c =? 78)%N then strip_prefix (str_of "NaN") s
               else None),
              (if (c =? 73)%N then strip_prefix (str_of "Infinity") s
               else None),
              (if (c =? 45)%N then strip_prefix (str_of "-Infinity") s
               else None)
            with
            | Some rest, _, _, _, _, _ => Parsed PyNone rest
            | _, Some rest, _, _, _, _ => Parsed (PyBool true) rest
            | _, _, Some rest, _, _, _ => Parsed (PyBool false) rest
            | _, _, _, Some rest, _, _ => Parsed (PyFloat (str_of "NaN")) rest
            | _, _, _, _, Some rest, _ =>
                Parsed (PyFloat (str_of "Infinity")) rest
            | _, _, _, _, _, Some rest =>
                Parsed (PyFloat (str_of "-Infinity")) rest
            | None, None, None, None, None, None =>
                match match_number s with
                | Some (v, rest) => Parsed v rest
                | None => Malformed
                end
            end
      end
  end

(** The members of an object, from the quote that opens a key. *)
with parse_members (fuel : nat) (acc : dict pyval) (s : str) : parsed pyval :=
  match fuel with
  | O => OutOfFuel
  | S fuel =>
      match s with
      | [] => Malformed
      | c :: s1 =>
          if negb (c =? 34)%N then Malformed
          else
            match scanstring s1 with
            | Parsed key s2 =>
                match skip_ws s2 with
                | [] => Malformed
                | c2 :: s3 =>
                    if negb (c2 =? 58)%N then Malformed
                    else
                      match scan_once fuel (skip_ws s3) with
                      | Parsed val s4 =>
                          let acc := dict_set acc key val in
                          match skip_ws s4 with
                          | [] => Malformed
                          | c3 :: s5 =>
                              if (c3 =? 125)%N then Parsed (PyDict acc) s5
                              else if (c3 =? 44)%N then
                                parse_members fuel acc (skip_ws s5)
                              else Malformed
                          end
                      | Malformed => Malformed
                      | OutOfFuel => OutOfFuel
                      end
                end
            | Malformed => Malformed
            | OutOfFuel => OutOfFuel
            end
      end
  end

(** The elements of an array, from the first character of one. *)
with parse_elements (fuel : nat) (acc : list pyval) (s : str) : parsed pyval :=
  match fuel with
  | O => OutOfFuel
  | S fuel =>
      match scan_once fuel s with
      | Parsed val s1 =>
          let acc := acc ++ [val] in
          match skip_ws s1 with
          | [] => Malformed
          | c :: s2 =>
              if (c =? 93)%N then Parsed (PyList acc) s2
              else if (c =? 44)%N then parse_elements fuel acc (skip_ws s2)
              else Malformed
          end
      | Malformed => Malformed
      | OutOfFuel => OutOfFuel
      end
  end.

(** [s.startswith('\ufeff')] *)
Definition starts_with_bom (s : str) : bool :=
  match s with
  | c :: _ => (c =? 0xFEFF)%N
  | [] => false
  end.

(** [json.loads(s)]: no byte order mark, one value, white space around it
    and nothing else. *)
Definition json_loads (s : str) : parsed pyval :=
  if starts_with_bom s then Malformed
  else
    match scan_once (S (2 * List.length s)) (skip_ws s) with
    | Parsed v rest =>
        match skip_ws rest with
        | [] => Parsed v []
        | _ :: _ => Malformed
        end
    | Malformed => Malformed
    | OutOfFuel => OutOfFuel
    end.

(* ================================================================== *)
(** * Persistence *)

Definition with_fs (s : state) (fs : filesystem) : state :=
  mkState (st_stock s) (st_log s) fs.

(** [open(file, "r", encoding="utf-8")]: the bytes the handle reads. *)
Definition open_read (file : path) : M (list byte) :=
  fun s =>
    match st_fs s file with
    | Absent _ => (Raise FileNotFoundError, s)
    | Directory => (Raise IsADirectoryError, s)
    | Regular content readable _ =>
        if readable then (Ret content, s) else (Raise PermissionError, s)
    end.

(** [open(file, "w", encoding="utf-8")]: the file is created or emptied. *)
Definition open_write (file : path) : M unit :=
  fun s =>
    match st_fs s file with
    | Absent creatable =>
        if creatable then
          (Ret tt, with_fs s (fs_update (st_fs s) file (Regular [] true true)))
        else (Raise FileNotFoundError, s)
    | Directory => (Raise IsADirectoryError, s)
    | Regular _ readable writable =>
        if writable then
          (Ret tt,
           with_fs s (fs_update (st_fs s) file (Regular [] readable writable)))
        else (Raise PermissionError, s)
    end.

Definition append_bytes (e : fs_entry) (bs : list byte) : fs_entry :=
  match e with
  | Regular content readable writable =>
      Regular (content ++ bs) readable writable
  | _ => Regular bs true true
  end.

(** [f.write(text)] on the handle [open_write] gave; a newline is written
    as it is (POSIX). *)
Definition write_text (file : path) (text : str) : M unit :=
  fun s =>
    match utf8_encode text with
    | Some bs =>
        (Ret tt,
         with_fs s (fs_update (st_fs s) file (append_bytes (st_fs s file) bs)))
    | None => (Raise UnicodeEncodeError, s)
    end.

(** [json.dump(stock, f, indent=4)] *)
Definition json_dump (file : path) : M unit :=
  items <- stock_items ;;
  write_text file (json_dumps items).

(** [json.load(f)]: [f.read()] decodes the bytes, [json.loads] parses the
    text.  The scanner's fuel stands for the depth of recursion; with what
    [json_loads] gives it never runs out, and the interpreter's own limit
    on recursion is left out. *)
Definition json_load (content : list byte) : M pyval :=
  match utf8_decode content with
  | None => raise UnicodeDecodeError
  | Some text =>
      match json_loads (translate_newlines text) with
      | Parsed v _ => ret v
      | Malformed => raise JSONDecodeError
      | OutOfFuel => raise RecursionError
      end
  end.

Definition default_file : path := str_of "inventory.json".

Definition file_or_default (file : option path) : path :=
  match file with
  | Some p => p
  | None => default_file
  end.

Definition load_data (file : option path) : M pyval :=
  let file := file_or_default file in
  try_except
    (f <- open_read file ;;
     stock_data <- json_load f ;;
     if negb (isinstance_dict stock_data) then
       logging ERROR (MsgInvalidFormat file) ;;
       ret (PyDict [])
     else ret stock_data)
    [(is_FileNotFoundError,
      fun _ => logging WARNING (MsgNotFound file) ;; ret (PyDict []));
     (is_JSONDecodeError,
      fun _ => logging ERROR (MsgDecodeError file) ;; ret (PyDict []))].

Definition save_data (file : option path) : M unit :=
  let file := file_or_default file in
  try_except
    (open_write file ;;
     json_dump file ;;
     logging INFO (MsgSaved file))
    [(is_IOError, fun e => logging ERROR (MsgWriteFailed file e))].

(** The dictionary as the Python value it is. *)
Definition stock_entry (e : str * Z) : str * pyval := (fst e, PyInt (snd e)).

Definition pydict_of_stock (d : dict Z) : pyval :=
  PyDict (map stock_entry d).

(** A file that [open] accepts for writing and then for reading. *)
Definition opens_both_ways (e : fs_entry) : bool :=
  match e with
  | Absent creatable => creatable
  | Regular _ readable writable => readable && writable
  | Directory => false
  end.

(** Text in the sense of Unicode: code points up to U+10FFFF that are not
    surrogates. *)
Definition is_scalar_value (c : codepoint) : bool :=
  (c <=? 0x10FFFF)%N && negb (is_surrogate c).

Definition is_text (s : str) : bool := forallb is_scalar_value s.

(** ** Vocabulary of the proofs *)

(** The characters that follow a number in what [json.dump] writes: the
    comma of the separator, the newline before the closing brace. *)
Definition ends_number (c : codepoint) : Prop := (c = 44 \/ c = 10)%N.

(** The text of one member, followed by [t]. *)
Definition member_text (key : str) (v : Z) (t : str) : str :=
  (34 :: flat_map escape_char key ++ 34 :: 58 :: 32 :: int_repr v ++ t)%N.

(** A newline or a printable ASCII character. *)
Definition plain (c : codepoint) : Prop := (c = 10 \/ 32 <= c <= 126)%N.

(** A result that used no more than it was given: some input was
    consumed, or the text was refused; the fuel did not run out. *)
Definition consumes {A} (s : str) (p : parsed A) : Prop :=
  match p with
  | Parsed _ r => (List.length r < List.length s)%nat
  | Malformed => True
  | OutOfFuel => False
  end.

(* ================================================================== *)
(** * Sample data *)

Definition apple : str := str_of "apple".
Definition banana : str := str_of "banana".
Definition orange : str := str_of "orange".

(** No file yet, in a directory one can write to. *)
Definition fresh_fs : filesystem := fun _ => Absent true.

(** The dictionary of the demonstration script after its two additions. *)
Definition sample_state : state :=
  mkState [(apple, 10); (banana, -2)] [] fresh_fs.

(** The same dictionary where nothing can be created: the directory of the
    file is missing. *)
Definition locked_state : state :=
  mkState [(apple, 10); (banana, -2)] [] (fun _ => Absent false).

(** [inventory.json] holds one byte, 0xFF, which starts no UTF-8
    sequence. *)
Definition garbled_state : state :=
  mkState [] [] (fs_update fresh_fs default_file (Regular [xff] true true)).

(* ================================================================== *)
(** * The report *)

(** Standard output is the bytes written so far; the terminal takes
    UTF-8, so [print] raises [UnicodeEncodeError] on a string that has no
    UTF-8 form and then writes nothing of it. *)
Definition O (A : Type) := list byte -> result A * list byte.

Definition obind {A B} (m : O A) (f : A -> O B) : O B :=
  fun out =>
    match m out with
    | (Ret a, out') => f a out'
    | (Raise e, out') => (Raise e, out')
    end.

(** [print(text)]: the text and a newline. *)
Definition py_print (text : str) : O unit :=
  fun out =>
    match utf8_encode (text ++ [10%N]) with
    | Some bs => (Ret tt, out ++ bs)
    | None => (Raise UnicodeEncodeError, out)
    end.

(** [f"{item} -> {qty}"] *)
Definition report_line (item : str) (qty : Z) : str :=
  item ++ str_of " -> " ++ int_repr qty.

(** [for item, qty in stock.items(): print(...)] *)
Fixpoint print_items (items : list (str * Z)) : O unit :=
  match items with
  | [] => fun out => (Ret tt, out)
  | (item, qty) :: items' =>
      obind (py_print (report_line item qty)) (fun _ => print_items items')
  end.

Definition print_data (stock : dict Z) : O unit :=
  obind (py_print (10%N :: str_of "--- Items Report ---")) (fun _ =>
  obind (match stock with
         | [] => py_print (str_of "Inventory is empty.")
         | _ :: _ => print_items stock
         end) (fun _ =>
  py_print (str_of "--------------------" ++ [10%N]))).

(** The text of the report: a blank line and the header, the placeholder
    or one line for each entry, the footer and a blank line. *)
Definition report_text (stock : dict Z) : str :=
  (10%N :: str_of "--- Items Report ---" ++ [10%N])
  ++ match stock with
     | [] => str_of "Inventory is empty." ++ [10%N]
     | _ :: _ => flat_map (fun e => report_line (fst e) (snd e) ++ [10%N]) stock
     end
  ++ str_of "--------------------" ++ [10%N; 10%N].

(* ================================================================== *)
(** * Further vocabulary *)

(** The invariant the store aims at: every quantity kept is positive. *)
Definition positive_stock (d : dict Z) : Prop :=
  Forall (fun e => 0 < snd e) d.

(** [open(file, "w")] succeeds on this entry. *)
Definition can_write (e : fs_entry) : bool :=
  match e with
  | Absent creatable => creatable
  | Regular _ _ writable => writable
  | Directory => false
  end.

(** The entry a successful [save_data] leaves: the bytes written, with
    the permissions the file had, or those of a new file. *)
Definition saved_entry (e : fs_entry) (bs : list byte) : fs_entry :=
  match e with
  | Regular _ readable writable => Regular bs readable writable
  | _ => Regular bs true true
  end.

(** A computation on standard output that only adds to what is there. *)
Definition appends {A} (m : O A) : Prop :=
  forall out, exists bs, snd (m out) = out ++ bs.

(** White space in the sense of JSON, as a byte. *)
Definition blank_byte (b : byte) : bool := is_ws (Byte.to_N b).

(** What [stock[item] -= qty] and the test after it leave of a quantity
    [v]: nothing when the difference is 0 or less. *)
Definition after_removal (v q : Z) : option Z :=
  if v - q <=? 0 then None else Some (v - q).

(** The arguments pass both guards of the mutators. *)
Definition valid_arguments (item qty : pyval) : bool :=
  negb (invalid_item item) && isinstance_int qty.

(* ================================================================== *)
(** * Facts about dictionaries *)

Section DictFacts.
Context {V : Type}.
Implicit Types (d : dict V) (k : str) (v : V).

Lemma dict_get_set_same d k v : dict_get (dict_set d k v) k = Some v.
Proof.
  induction d as [|[k' v'] d IH]; simpl.
  - destruct (str_eq_dec k k); congruence.
  - destruct (str_eq_dec k k') as [E|N]; simpl.
    + destruct (str_eq_dec k k'); congruence.
    + destruct (str_eq_dec k k'); [contradiction | exact IH].
Qed.

Lemma dict_get_set_other d k k' v :
  k' <> k -> dict_get (dict_set d k v) k' = dict_get d k'.
Proof.
  intros Hne. induction d as [|[k0 v0] d IH]; simpl.
  - destruct (str_eq_dec k' k); [contradiction | reflexivity].
  - destruct (str_eq_dec k k0) as [E|N]; simpl.
    + subst k0. destruct (str_eq_dec k' k); [contradiction | reflexivity].
    + destruct (str_eq_dec k' k0); [reflexivity | exact IH].
Qed.

Lemma dict_get_del_same d k : dict_get (dict_del d k) k = None.
Proof.
  induction d as [|[k' v'] d IH]; simpl; [reflexivity|].
  destruct (str_eq_dec k k') as [E|N]; simpl; [exact IH|].
  destruct (str_eq_dec k k'); [contradiction | exact IH].
Qed.

Lemma dict_get_del_other d k k' :
  k' <> k -> dict_get (dict_del d k) k' = dict_get d k'.
Proof.
  intros Hne. induction d as [|[k0 v0] d IH]; simpl; [reflexivity|].
  destruct (str_eq_dec k k0) as [E|N]; simpl.
  - subst k0. destruct (str_eq_dec k' k); [contradiction | exact IH].
  - destruct (str_eq_dec k' k0); [reflexivity | exact IH].
Qed.

Lemma dict_get_None d k : dict_get d k = None <-> ~ In k (dict_keys d).
Proof.
  induction d as [|[k' v'] d IH]; simpl.
  - tauto.
  - destruct (str_eq_dec k k') as [E|N].
    + split; [discriminate | intros H; exfalso; apply H; left; congruence].
    + rewrite IH. split; [intros H [E|H']; [congruence | tauto] | tauto].
Qed.

Lemma dict_del_set d k v : dict_del (dict_set d k v) k = dict_del d k.
Proof.
  induction d as [|[k' v'] d IH]; simpl.
  - destruct (str_eq_dec k k); [reflexivity | congruence].
  - destruct (str_eq_dec k k') as [E|N]; simpl.
    + destruct (str_eq_dec k k'); [reflexivity | contradiction].
    + destruct (str_eq_dec k k'); [contradiction | now rewrite IH].
Qed.

Lemma dict_del_absent d k : dict_get d k = None -> dict_del d k = d.
Proof.
  induction d as [|[k' v'] d IH]; simpl; [reflexivity|].
  destruct (str_eq_dec k k'); [discriminate|].
  intros H. now rewrite (IH H).
Qed.

(** Assignment keeps the iteration order: a key that is present stays
    where it is, a new one is appended. *)
Lemma dict_keys_set d k v :
  dict_keys (dict_set d k v) =
  match dict_get d k with
  | Some _ => dict_keys d
  | None => dict_keys d ++ [k]
  end.
Proof.
  induction d as [|[k' v'] d IH]; simpl; [reflexivity|].
  destruct (str_eq_dec k k'); simpl; [reflexivity|].
  unfold dict_keys in *. destruct (dict_get d k); simpl; f_equal; exact IH.
Qed.

Lemma dict_set_fresh d k v :
  dict_get d k = None -> dict_set d k v = d ++ [(k, v)].
Proof.
  induction d as [|[k' v'] d IH]; simpl; [reflexivity|].
  destruct (str_eq_dec k k'); [discriminate|].
  intros H. now rewrite (IH H).
Qed.

(** Uniqueness of keys, the invariant of a dictionary, is kept by the
    operations. *)
Lemma dict_set_NoDup d k v :
  NoDup (dict_keys d) -> NoDup (dict_keys (dict_set d k v)).
Proof.
  intros H. rewrite dict_keys_set.
  destruct (dict_get d k) eqn:E; [exact H|].
  apply dict_get_None in E.
  apply NoDup_rev in H. rewrite <- (rev_involutive (_ ++ _)).
  apply NoDup_rev. rewrite rev_app_distr. simpl.
  constructor; [rewrite <- in_rev; exact E | exact H].
Qed.

Lemma dict_del_NoDup d k :
  NoDup (dict_keys d) -> NoDup (dict_keys (dict_del d k)).
Proof.
  induction d as [|[k' v'] d IH]; simpl; [trivial|].
  intros H. inversion H as [|? ? Hn Hd]; subst.
  destruct (str_eq_dec k k'); simpl; [now apply IH|].
  constructor; [|now apply IH].
  intros Hin. apply Hn.
  change (In k' (dict_keys (dict_del d k))) in Hin.
  apply dict_get_None in Hn.
  destruct (dict_get (dict_del d k) k') eqn:E.
  - rewrite dict_get_del_other in E by congruence. congruence.
  - apply dict_get_None in E. contradiction.
Qed.
End DictFacts.

(* ================================================================== *)
(** * The store *)

Ltac run :=
  repeat (progress
    (unfold add_item, remove_item, get_qty, check_low_items, try_except,
       bind, ret, raise, logging, stock_get, stock_getitem, stock_setitem,
       stock_delitem, stock_items, as_key, as_int; simpl)).

Lemma invalid_item_spec item :
  invalid_item item = true <-> (forall name, item = PyStr name -> name = []).
Proof.
  destruct item as [| | | |[|c name]| |]; simpl; split; intros H;
    try reflexivity; try discriminate; try (intros n E; congruence).
  specialize (H _ eq_refl). discriminate.
Qed.

Lemma isinstance_int_spec qty :
  isinstance_int qty = false <-> int_value qty = None.
Proof. destruct qty; simpl; split; congruence. Qed.

Lemma valid_item name : name <> [] -> invalid_item (PyStr name) = false.
Proof. destruct name; [congruence | reflexivity]. Qed.

Lemma valid_qty qty q : int_value qty = Some q -> isinstance_int qty = true.
Proof. destruct qty; simpl; congruence. Qed.

(** What [add_item] does on valid arguments. *)
Lemma add_item_valid s name qty q :
  name <> [] -> int_value qty = Some q ->
  add_item (PyStr name) qty s =
  let total := quantity (st_stock s) name + q in
  (Ret tt,
   mkState (dict_set (st_stock s) name total)
     (st_log s ++ [(INFO, MsgAdded q name total)]) (st_fs s)).
Proof.
  intros Hn Hq. unfold add_item.
  rewrite (valid_item _ Hn), (valid_qty _ _ Hq). run. rewrite Hq. run.
  rewrite dict_get_set_same. reflexivity.
Qed.

(** What [remove_item] does on valid arguments when the item is there. *)
Lemma remove_item_valid_present s name qty q v :
  name <> [] -> int_value qty = Some q ->
  dict_get (st_stock s) name = Some v ->
  remove_item (PyStr name) qty s =
  if v - q <=? 0 then
    (Ret tt,
     mkState (dict_del (st_stock s) name)
       (st_log s ++ [(INFO, MsgRemovedGone q name)]) (st_fs s))
  else
    (Ret tt,
     mkState (dict_set (st_stock s) name (v - q))
       (st_log s ++ [(INFO, MsgRemoved q name (v - q))]) (st_fs s)).
Proof.
  intros Hn Hq Hv. unfold remove_item.
  rewrite (valid_item _ Hn), (valid_qty _ _ Hq). run. rewrite Hq. run. rewrite Hv. run.
  rewrite dict_get_set_same.
  destruct (v - q <=? 0); run; rewrite dict_get_set_same; run.
  - now rewrite dict_del_set.
  - reflexivity.
Qed.

(** ... and when it is not. *)
Lemma remove_item_valid_absent s name qty q :
  name <> [] -> int_value qty = Some q ->
  dict_get (st_stock s) name = None ->
  remove_item (PyStr name) qty s =
  (Ret tt,
   mkState (st_stock s) (st_log s ++ [(WARNING, MsgNotInStock name)])
     (st_fs s)).
Proof.
  intros Hn Hq Hv. unfold remove_item.
  rewrite (valid_item _ Hn), (valid_qty _ _ Hq). run. rewrite Hq. run. rewrite Hv. reflexivity.
Qed.

(** Both mutators refuse the same arguments, with the same record. *)
Lemma mutators_invalid s item qty :
  invalid_item item = true \/ isinstance_int qty = false ->
  let m := if invalid_item item then MsgInvalidItem item else MsgInvalidQty qty in
  let s' := mkState (st_stock s) (st_log s ++ [(ERROR, m)]) (st_fs s) in
  add_item item qty s = (Ret tt, s') /\ remove_item item qty s = (Ret tt, s').
Proof.
  intros H. unfold add_item, remove_item.
  destruct (invalid_item item); [now split|].
  destruct H as [H|H]; [discriminate|]. rewrite H. now split.
Qed.

(* ================================================================== *)
(** * The JSON text: what is written is read back *)

Section JsonFacts.
Local Open Scope N_scope.

Ltac Zify.zify_post_hook ::= Z.to_euclidean_division_equations.

Lemma in_range_spec lo hi x : in_range lo hi x = true <-> lo <= x <= hi.
Proof.
  unfold in_range. rewrite andb_true_iff, !N.leb_le. tauto.
Qed.

Lemma in_range_false lo hi x : in_range lo hi x = false <-> x < lo \/ hi < x.
Proof.
  unfold in_range. rewrite andb_false_iff, !N.leb_gt. tauto.
Qed.

Lemma land_15 x : N.land x 15 = x mod 16.
Proof. change 15 with (N.ones 4). now rewrite N.land_ones. Qed.

Lemma land_1023 x : N.land x 0x3FF = x mod 1024.
Proof. change 0x3FF with (N.ones 10). now rewrite N.land_ones. Qed.

Lemma hex_value_digit d : d < 16 -> hex_value (hex_digit d) = Some d.
Proof.
  intros H. unfold hex_digit, hex_value.
  destruct (d <? 10) eqn:E.
  - apply N.ltb_lt in E.
    replace (in_range 48 57 (48 + d)) with true
      by (symmetry; apply in_range_spec; lia).
    f_equal. lia.
  - apply N.ltb_ge in E.
    replace (in_range 48 57 (87 + d)) with false
      by (symmetry; apply in_range_false; lia).
    replace (in_range 97 102 (87 + d)) with true
      by (symmetry; apply in_range_spec; lia).
    f_equal. lia.
Qed.

Lemma hex_digit_printable d : d < 16 -> 48 <= hex_digit d <= 102.
Proof. intros H. unfold hex_digit. destruct (d <? 10) eqn:E; [apply N.ltb_lt in E|apply N.ltb_ge in E]; lia. Qed.

Lemma hex4_u_escape x :
  x < 65536 ->
  exists h1 h2 h3 h4, u_escape x = [92; 117; h1; h2; h3; h4] /\ hex4 h1 h2 h3 h4 = Some x.
Proof.
  intros H. unfold u_escape. do 4 eexists. split; [reflexivity|].
  unfold hex4. rewrite !land_15, !N.shiftr_div_pow2.
  rewrite !hex_value_digit by (apply N.mod_lt; discriminate).
  f_equal. change (2^12) with 4096. change (2^8) with 256. change (2^4) with 16.
  lia.
Qed.

Lemma lor_high_low a k x : x < 2 ^ k -> N.lor (N.shiftl a k) x = a * 2 ^ k + x.
Proof.
  intros H.
  assert (E : N.land (N.shiftl a k) x = 0).
  { apply N.bits_inj_iff. intros i. rewrite N.land_spec, N.bits_0.
    destruct (N.lt_ge_cases i k) as [Hi|Hi].
    - now rewrite N.shiftl_spec_low.
    - rewrite <- (N.mod_small x (2 ^ k)) by exact H.
      rewrite N.mod_pow2_bits_high by exact Hi. apply andb_false_r. }
  rewrite <- N.lxor_lor, <- N.add_nocarry_lxor by exact E.
  now rewrite N.shiftl_mul_pow2.
Qed.

Lemma scanstring_u h1 h2 h3 h4 s3 uni :
  hex4 h1 h2 h3 h4 = Some uni ->
  is_high_surrogate uni = false ->
  scanstring (92 :: 117 :: h1 :: h2 :: h3 :: h4 :: s3) =
  parsed_map (cons uni) (scanstring s3).
Proof.
  intros H Hh. cbn [scanstring N.eqb Pos.eqb].
  destruct (hex4 h1 h2 h3 h4) as [x|]; [|discriminate H].
  injection H as ->.
  destruct (is_high_surrogate uni); [discriminate Hh|].
  destruct s3 as [|b [|u [|g1 [|g2 [|g3 [|g4 s4]]]]]]; reflexivity.
Qed.

Lemma scanstring_pair h1 h2 h3 h4 l1 l2 l3 l4 s4 hi lo :
  hex4 h1 h2 h3 h4 = Some hi ->
  is_high_surrogate hi = true ->
  hex4 l1 l2 l3 l4 = Some lo ->
  is_low_surrogate lo = true ->
  scanstring (92 :: 117 :: h1 :: h2 :: h3 :: h4
              :: 92 :: 117 :: l1 :: l2 :: l3 :: l4 :: s4) =
  parsed_map (cons (join_surrogates hi lo)) (scanstring s4).
Proof.
  intros H Hh L Hl. cbn [scanstring N.eqb Pos.eqb].
  destruct (hex4 h1 h2 h3 h4) as [x|]; [|discriminate H].
  injection H as ->.
  destruct (is_high_surrogate hi); [|discriminate Hh].
  cbn [andb].
  destruct (hex4 l1 l2 l3 l4) as [y|]; [|discriminate L].
  injection L as ->.
  destruct (is_low_surrogate lo); [reflexivity | discriminate Hl].
Qed.

Lemma scanstring_escape_char c t :
  c <= 0x10FFFF -> is_surrogate c = false ->
  scanstring (escape_char c ++ t) = parsed_map (cons c) (scanstring t).
Proof.
  intros Hmax Hs. unfold escape_char.
  destruct (c =? 34) eqn:E1; [apply N.eqb_eq in E1; now subst c|].
  destruct (c =? 92) eqn:E2; [apply N.eqb_eq in E2; now subst c|].
  destruct (c =? 8) eqn:E3; [apply N.eqb_eq in E3; now subst c|].
  destruct (c =? 12) eqn:E4; [apply N.eqb_eq in E4; now subst c|].
  destruct (c =? 10) eqn:E5; [apply N.eqb_eq in E5; now subst c|].
  destruct (c =? 13) eqn:E6; [apply N.eqb_eq in E6; now subst c|].
  destruct (c =? 9) eqn:E7; [apply N.eqb_eq in E7; now subst c|].
  destruct ((32 <=? c) && (c <=? 126)) eqn:E8.
  { apply andb_true_iff in E8. destruct E8 as [Hlo Hhi].
    apply N.leb_le in Hlo. cbn [app scanstring]. rewrite E1, E2.
    replace (c <? 32) with false by (symmetry; apply N.ltb_ge; exact Hlo).
    reflexivity. }
  apply in_range_false in Hs. fold (in_range 0xD800 0xDFFF c) in Hs.
  destruct (c <? 0x10000) eqn:E9.
  - apply N.ltb_lt in E9.
    destruct (hex4_u_escape c E9) as (h1 & h2 & h3 & h4 & -> & Hx).
    apply (scanstring_u _ _ _ _ _ _ Hx).
    apply in_range_false. lia.
  - apply N.ltb_ge in E9. cbv zeta.
    set (n := c - 0x10000).
    assert (Hn : n < 0x100000) by (unfold n; lia).
    assert (Hc : c = 0x10000 + n) by (unfold n; lia).
    clearbody n.
    assert (Hhi : N.lor 0xD800 (N.land (N.shiftr n 10) 0x3FF) = 0xD800 + n / 1024).
    { rewrite land_1023, N.shiftr_div_pow2. change (2 ^ 10) with 1024.
      rewrite N.mod_small by (apply N.Div0.div_lt_upper_bound; lia).
      apply (lor_high_low 54 10). apply N.Div0.div_lt_upper_bound. lia. }
    assert (Hlo : N.lor 0xDC00 (N.land n 0x3FF) = 0xDC00 + n mod 1024).
    { rewrite land_1023. apply (lor_high_low 55 10). apply N.mod_lt. discriminate. }
    rewrite Hhi, Hlo.
    assert (Hq : n / 1024 < 1024) by (apply N.Div0.div_lt_upper_bound; lia).
    assert (Hr : n mod 1024 < 1024) by (apply N.mod_lt; discriminate).
    destruct (hex4_u_escape (0xD800 + n / 1024)) as (h1 & h2 & h3 & h4 & -> & Hx);
      [lia|].
    destruct (hex4_u_escape (0xDC00 + n mod 1024)) as (l1 & l2 & l3 & l4 & -> & Lx);
      [lia|].
    cbn [app].
    assert (Sh : is_high_surrogate (0xD800 + n / 1024) = true)
      by (apply in_range_spec; lia).
    assert (Sl : is_low_surrogate (0xDC00 + n mod 1024) = true)
      by (apply in_range_spec; lia).
    etransitivity; [exact (scanstring_pair _ _ _ _ _ _ _ _ t _ _ Hx Sh Lx Sl)|].
    f_equal. f_equal. unfold join_surrogates.
    replace (0xD800 + n / 1024 - 0xD800) with (n / 1024) by lia.
    replace (0xDC00 + n mod 1024 - 0xDC00) with (n mod 1024) by lia.
    rewrite lor_high_low by exact Hr. change (2 ^ 10) with 1024.
    pose proof (N.div_mod n 1024). lia.
Qed.

Lemma scanstring_escape k t :
  is_text k = true ->
  scanstring (flat_map escape_char k ++ 34 :: t) = Parsed k t.
Proof.
  induction k as [|c k IH]; [reflexivity|]. cbn [is_text forallb].
  intros H. apply andb_true_iff in H. destruct H as [Hc Hk].
  apply andb_true_iff in Hc. destruct Hc as [Hmax Hs].
  apply N.leb_le in Hmax. apply negb_true_iff in Hs.
  cbn [flat_map]. rewrite <- app_assoc, scanstring_escape_char by assumption.
  now rewrite (IH Hk).
Qed.

(** ** Integers *)

Lemma digits_are_digits u : Forall (fun c => is_digit c = true) (digits u).
Proof. induction u; simpl; constructor; auto. Qed.

Lemma span_digits_app ds c r :
  Forall (fun c => is_digit c = true) ds -> is_digit c = false ->
  span_digits (ds ++ c :: r) = (ds, c :: r).
Proof.
  intros H Hc. induction H as [|d ds Hd _ IH]; simpl.
  - now rewrite Hc.
  - now rewrite Hd, IH.
Qed.

Lemma uint_of_digits u : fold_right decimal_digit Decimal.Nil (digits u) = u.
Proof. induction u; simpl; now rewrite ?IHu. Qed.

Lemma nzhead_not_D0 u v : Decimal.nzhead u <> Decimal.D0 v.
Proof. induction u; simpl; try discriminate; exact IHu. Qed.

Lemma to_uint_leading p :
  exists d ds, digits (Pos.to_uint p) = d :: ds /\ in_range 49 57 d = true.
Proof.
  assert (E : Decimal.unorm (Pos.to_uint p) = Pos.to_uint p).
  { rewrite <- DecimalPos.Unsigned.to_of, DecimalPos.Unsigned.of_to.
    reflexivity. }
  pose proof (DecimalPos.Unsigned.to_uint_nonzero p) as Hz.
  pose proof (DecimalPos.Unsigned.to_uint_nonnil p) as Hn.
  destruct (Pos.to_uint p) as [|u|u|u|u|u|u|u|u|u|u]; try congruence;
    try (simpl; do 2 eexists; split; reflexivity).
  exfalso. rewrite DecimalFacts.unorm_D0 in E. unfold Decimal.unorm in E.
  destruct (Decimal.nzhead u) eqn:Eh; try discriminate E.
  - injection E as <-. now apply Hz.
  - now apply (nzhead_not_D0 u u0).
Qed.


Lemma match_number_digits (negative : bool) d ds c r :
  in_range 49 57 d = true ->
  Forall (fun c => is_digit c = true) ds ->
  ends_number c ->
  match_number ((if negative then [45] else []) ++ d :: ds ++ c :: r) =
  Some (PyInt (int_of_text negative (d :: ds)), c :: r).
Proof.
  intros Hd Hds Hc. unfold match_number.
  assert (Hc' : is_digit c = false) by (destruct Hc; subst c; reflexivity).
  assert (Hd45 : (d =? 45) = false).
  { apply N.eqb_neq. apply in_range_spec in Hd. lia. }
  assert (Hi : scan_integer (d :: ds ++ c :: r) = Some (d :: ds, c :: r)).
  { unfold scan_integer. now rewrite Hd, (span_digits_app _ _ _ Hds Hc'). }
  assert (Hf : scan_fraction (c :: r) = ([], c :: r)).
  { destruct Hc; subst c; destruct r; reflexivity. }
  assert (He : scan_exponent (c :: r) = ([], c :: r)).
  { destruct Hc; subst c; reflexivity. }
  destruct negative; cbn [app]; cbv beta iota; rewrite ?N.eqb_refl, ?Hd45;
    cbv beta iota; now rewrite Hi, Hf, He.
Qed.

Lemma match_number_zero c r :
  ends_number c -> match_number (48 :: c :: r) = Some (PyInt 0, c :: r).
Proof. intros [-> | ->]; destruct r; reflexivity. Qed.

Lemma int_repr_cases z :
  int_repr z = [48] /\ z = 0%Z \/
  exists (negative : bool) (d : codepoint) (ds : str),
    int_repr z = (if negative then [45] else []) ++ d :: ds /\
    in_range 49 57 d = true /\
    Forall (fun c => is_digit c = true) ds /\
    int_of_text negative (d :: ds) = z.
Proof.
  unfold int_repr.
  destruct z as [|p|p]; simpl Z.to_int; [left; now split | right | right];
    destruct (to_uint_leading p) as (d & ds & E & Hd);
    pose proof (digits_are_digits (Pos.to_uint p)) as Hds;
    [exists false | exists true]; exists d, ds; rewrite E in Hds |- *;
    (split; [reflexivity|]); (split; [exact Hd|]);
    (split; [exact (Forall_inv_tail Hds)|]);
    unfold int_of_text; rewrite <- E, uint_of_digits.
  - exact (DecimalZ.of_to (Z.pos p)).
  - exact (DecimalZ.of_to (Z.neg p)).
Qed.

Lemma scan_once_int fuel z c r :
  ends_number c ->
  scan_once (S fuel) (int_repr z ++ c :: r) = Parsed (PyInt z) (c :: r).
Proof.
  intros Hc.
  destruct (int_repr_cases z) as [[-> ->] | (negative & d & ds & -> & Hd & Hds & Hz)].
  - cbn -[match_number]. now rewrite match_number_zero.
  - pose proof (match_number_digits negative d ds c r Hd Hds Hc) as Hm.
    rewrite <- Hz. rewrite <- app_assoc. cbn [app] in Hm |- *.
    apply in_range_spec in Hd.
    assert (Hcases : d = 49 \/ d = 50 \/ d = 51 \/ d = 52 \/ d = 53 \/ d = 54
                     \/ d = 55 \/ d = 56 \/ d = 57) by lia.
    clear Hz Hd.
    destruct negative; cbn [app] in Hm |- *;
    repeat (destruct Hcases as [-> | Hcases]); try subst d;
      cbn -[match_number int_of_text]; now rewrite Hm.
Qed.

(** ** Objects *)

Lemma skip_ws_int_repr z t : skip_ws (int_repr z ++ t) = int_repr z ++ t.
Proof.
  destruct (int_repr_cases z) as [[-> _] | (negative & d & ds & -> & Hd & _)].
  - reflexivity.
  - destruct negative; [reflexivity|]. cbn [app skip_ws].
    replace (is_ws d) with false; [reflexivity|].
    symmetry. apply in_range_spec in Hd. unfold is_ws.
    rewrite !orb_false_iff, !N.eqb_neq. lia.
Qed.


Lemma parse_members_eq fuel acc c s1 :
  parse_members (S fuel) acc (c :: s1) =
  if negb (c =? 34)%N then Malformed
  else
    match scanstring s1 with
    | Parsed key s2 =>
        match skip_ws s2 with
        | [] => Malformed
        | c2 :: s3 =>
            if negb (c2 =? 58)%N then Malformed
            else
              match scan_once fuel (skip_ws s3) with
              | Parsed val s4 =>
                  let acc := dict_set acc key val in
                  match skip_ws s4 with
                  | [] => Malformed
                  | c3 :: s5 =>
                      if (c3 =? 125)%N then Parsed (PyDict acc) s5
                      else if (c3 =? 44)%N then
                        parse_members fuel acc (skip_ws s5)
                      else Malformed
                  end
              | Malformed => Malformed
              | OutOfFuel => OutOfFuel
              end
        end
    | Malformed => Malformed
    | OutOfFuel => OutOfFuel
    end.
Proof. reflexivity. Qed.

Ltac scan_ws := cbn [skip_ws is_ws N.eqb Pos.eqb orb negb].

Lemma encode_items_cons first key v items t :
  encode_items first ((key, v) :: items) ++ t =
  (if first then [] else [44; 10; 32; 32; 32; 32])
  ++ member_text key v (encode_items false items ++ t).
Proof.
  cbn [encode_items]. unfold encode_basestring_ascii, member_text.
  destruct first; cbn [app]; repeat (rewrite <- app_assoc; cbn [app]);
    reflexivity.
Qed.

(** A member followed by the closing brace ends the object ... *)
Lemma parse_members_last fuel acc key v rest :
  is_text key = true ->
  parse_members (S (S fuel)) acc (member_text key v (10 :: 125 :: rest)) =
  Parsed (PyDict (dict_set acc key (PyInt v))) rest.
Proof.
  intros Hk. unfold member_text.
  rewrite parse_members_eq, (scanstring_escape _ _ Hk). scan_ws.
  rewrite skip_ws_int_repr, scan_once_int by (right; reflexivity).
  reflexivity.
Qed.

(** ... and one followed by the separator leads to the next key. *)
Lemma parse_members_more fuel acc key v t :
  is_text key = true ->
  parse_members (S (S fuel)) acc
    (member_text key v (44 :: 10 :: 32 :: 32 :: 32 :: 32 :: 34 :: t)) =
  parse_members (S fuel) (dict_set acc key (PyInt v)) (34 :: t).
Proof.
  intros Hk. unfold member_text.
  rewrite parse_members_eq, (scanstring_escape _ _ Hk). scan_ws.
  rewrite skip_ws_int_repr, scan_once_int by (left; reflexivity).
  reflexivity.
Qed.

Lemma parse_members_items items :
  forall key v acc fuel rest,
    is_text key = true ->
    Forall (fun e => is_text (fst e) = true) items ->
    (S (S (List.length items)) <= fuel)%nat ->
    parse_members fuel acc
      (member_text key v (encode_items false items ++ 10 :: 125 :: rest)) =
    Parsed
      (PyDict (fold_left (fun d e => dict_set d (fst e) (snd e))
                 (map stock_entry items) (dict_set acc key (PyInt v))))
      rest.
Proof.
  induction items as [|[key' v'] items IH]; intros key v acc fuel rest Hk Hi Hf;
    (destruct fuel as [|[|fuel]]; [simpl in Hf; lia | simpl in Hf; lia |]).
  - now apply parse_members_last.
  - inversion Hi as [|? ? Hk' Hi']; subst.
    rewrite encode_items_cons. cbn [app]. unfold member_text at 2.
    rewrite (parse_members_more fuel acc key v _ Hk).
    cbn [map fold_left stock_entry fst snd].
    apply (IH key' v' (dict_set acc key (PyInt v)) (S fuel) rest Hk' Hi').
    simpl in Hf. lia.
Qed.

Lemma fold_set_fresh (items : dict Z) :
  forall acc : dict pyval,
    NoDup (dict_keys acc ++ dict_keys items) ->
    fold_left (fun d e => dict_set d (fst e) (snd e))
      (map stock_entry items) acc =
    acc ++ map stock_entry items.
Proof.
  induction items as [|[k v] items IH]; intros acc Hnd; cbn [map fold_left].
  - now rewrite app_nil_r.
  - cbn [stock_entry fst snd].
    assert (Hfresh : dict_get acc k = None).
    { apply dict_get_None. apply NoDup_remove_2 in Hnd.
      intros Hin. apply Hnd. apply in_or_app. now left. }
    rewrite (dict_set_fresh _ _ _ Hfresh), IH.
    + now rewrite <- app_assoc.
    + unfold dict_keys in *. rewrite map_app, <- app_assoc. exact Hnd.
Qed.

Lemma encode_items_length first items :
  (List.length items <= List.length (encode_items first items))%nat.
Proof.
  revert first. induction items as [|[k v] items IH]; intros first; [simpl; lia|].
  cbn [encode_items]. unfold encode_basestring_ascii.
  rewrite !length_app. cbn [List.length]. specialize (IH false). lia.
Qed.

(** What [json.dump] writes, [json.loads] reads back. *)
Lemma json_loads_dumps (d : dict Z) :
  NoDup (dict_keys d) ->
  Forall (fun e => is_text (fst e) = true) d ->
  json_loads (json_dumps d) = Parsed (PyDict (map stock_entry d)) [].
Proof.
  intros Hnd Ht. destruct d as [|[key v] items]; [reflexivity|].
  inversion Ht as [|? ? Hk Hi]; subst.
  unfold json_dumps, json_loads.
  set (fuel := (2 * List.length _)%nat).
  assert (Hf : (S (S (List.length items)) <= fuel)%nat).
  { unfold fuel. rewrite !length_app. cbn [List.length].
    pose proof (encode_items_length true ((key, v) :: items)).
    cbn [List.length] in *. lia. }
  clearbody fuel.
  pose proof (parse_members_items items key v [] fuel [] Hk Hi Hf) as E.
  rewrite encode_items_cons. cbn [app]. unfold member_text in E |- *.
  cbn -[parse_members]. rewrite E.
  cbn [dict_set]. rewrite (fold_set_fresh items [(key, PyInt v)]); [reflexivity|].
  exact Hnd.
Qed.

(** ** The bytes on disk *)

(** Everything [json.dump] writes is a newline or a printable ASCII
    character. *)

Ltac each_char := repeat first [apply Forall_nil | apply Forall_cons].

Ltac printable := solve [right; lia | left; reflexivity].

Lemma u_escape_plain n : Forall plain (u_escape n).
Proof.
  unfold u_escape. rewrite !land_15.
  each_char; try printable;
    match goal with
    | |- plain (hex_digit ?d) =>
        pose proof (hex_digit_printable d (N.mod_lt _ 16 ltac:(discriminate)))
    end; right; lia.
Qed.

Lemma escape_char_plain c : Forall plain (escape_char c).
Proof.
  unfold escape_char.
  repeat match goal with
         | |- Forall plain (if ?b then _ else _) => destruct b eqn:?
         end;
    try (each_char; printable); try apply u_escape_plain.
  - each_char. right.
    match goal with
    | H : _ && _ = true |- _ => apply andb_true_iff in H; destruct H as [H1 H2]
    end.
    apply N.leb_le in H1, H2. lia.
  - cbv zeta. apply Forall_app. split; apply u_escape_plain.
Qed.

Lemma digits_plain u : Forall plain (digits u).
Proof. induction u; simpl; constructor; auto; right; lia. Qed.

Lemma int_repr_plain z : Forall plain (int_repr z).
Proof.
  unfold int_repr. destruct (Z.to_int z); [|constructor; [right; lia|]];
    apply digits_plain.
Qed.

Lemma encode_items_plain first items : Forall plain (encode_items first items).
Proof.
  revert first. induction items as [|[k v] items IH]; intros first;
    cbn [encode_items]; [constructor|].
  repeat (apply Forall_app; split); try apply IH; try apply int_repr_plain.
  - destruct first; each_char; printable.
  - unfold encode_basestring_ascii. constructor; [right; lia|].
    apply Forall_app. split; [|each_char; printable].
    apply Forall_flat_map. apply Forall_forall. intros c _.
    apply escape_char_plain.
  - each_char; printable.
Qed.

Lemma json_dumps_plain d : Forall plain (json_dumps d).
Proof.
  unfold json_dumps. destruct d as [|e d].
  - each_char; printable.
  - repeat (apply Forall_app; split); try apply encode_items_plain;
      each_char; printable.
Qed.

Lemma to_N_byte_of c : c < 256 -> Byte.to_N (byte_of c) = c.
Proof.
  intros H. unfold byte_of. destruct (Byte.of_N c) as [b|] eqn:E.
  - now apply Byte.to_of_N.
  - apply Byte.of_N_None_iff in E. lia.
Qed.

(** Plain text is its own UTF-8 encoding, byte for byte ... *)
Lemma utf8_encode_plain s :
  Forall plain s -> utf8_encode s = Some (map byte_of s).
Proof.
  induction 1 as [|c s Hc _ IH]; [reflexivity|].
  cbn [utf8_encode map]. rewrite IH. unfold utf8_encode_char.
  replace (c <? 0x80) with true; [reflexivity|].
  symmetry. apply N.ltb_lt. destruct Hc; lia.
Qed.

(** ... which the decoder gives back ... *)
Lemma utf8_decode_plain s :
  Forall plain s -> utf8_decode (map byte_of s) = Some s.
Proof.
  induction 1 as [|c s Hc _ IH]; [reflexivity|].
  cbn [utf8_decode map]. rewrite IH, to_N_byte_of by (destruct Hc; lia).
  replace (c <? 0x80) with true; [reflexivity|].
  symmetry. apply N.ltb_lt. destruct Hc; lia.
Qed.

(** ... and which has no carriage return for the reader to translate. *)
Lemma translate_newlines_plain s : Forall plain s -> translate_newlines s = s.
Proof.
  induction 1 as [|c s Hc _ IH]; [reflexivity|].
  cbn [translate_newlines]. rewrite IH.
  replace (c =? 13) with false; [reflexivity|].
  symmetry. apply N.eqb_neq. destruct Hc; lia.
Qed.


(** ** The fuel is enough *)

Lemma skip_ws_length s : (List.length (skip_ws s) <= List.length s)%nat.
Proof.
  induction s as [|c s IH]; simpl; [lia|]. destruct (is_ws c); simpl; lia.
Qed.

Lemma span_digits_length s ds r :
  span_digits s = (ds, r) -> (List.length r <= List.length s)%nat.
Proof.
  revert ds r. induction s as [|c s IH]; simpl; intros ds r H.
  - injection H as <- <-. simpl. lia.
  - destruct (is_digit c).
    + destruct (span_digits s) as [ds' r'] eqn:E. injection H as <- <-.
      specialize (IH _ _ eq_refl). lia.
    + injection H as <- <-. simpl. lia.
Qed.

Lemma strip_prefix_length word s r :
  strip_prefix word s = Some r ->
  (List.length r + List.length word = List.length s)%nat.
Proof.
  revert s r. induction word as [|w word IH]; simpl; intros s r H.
  - injection H as <-. lia.
  - destruct s as [|c s]; [discriminate|].
    destruct (w =? c); [|discriminate]. apply IH in H. simpl. lia.
Qed.

Lemma consumes_map {A B} (f : A -> B) s s' (p : parsed A) :
  consumes s' p -> (List.length s' <= List.length s)%nat ->
  consumes s (parsed_map f p).
Proof. destruct p; simpl; auto. lia. Qed.

Lemma scanstring_consumes n :
  forall s, (List.length s <= n)%nat -> consumes (34 :: s) (scanstring s).
Proof.
  induction n as [|n IH]; intros s Hn.
  - destruct s; [exact I | simpl in Hn; lia].
  - destruct s as [|c s1]; [exact I|].
    assert (K : forall x t,
               (S (List.length t) <= List.length (c :: s1))%nat ->
               consumes (34 :: c :: s1) (parsed_map (cons x) (scanstring t))).
    { intros x t Ht. apply (consumes_map _ _ (34 :: t)).
      - apply IH. simpl in *. lia.
      - simpl in *. lia. }
    cbn [scanstring].
    destruct (c =? 34); [simpl; lia|].
    destruct (c =? 92); [|destruct (c <? 32); [exact I | apply K; simpl; lia]].
    destruct s1 as [|e s2]; [exact I|].
    destruct (e =? 117).
    2:{ destruct (backslash e); [apply K; simpl; lia | exact I]. }
    destruct s2 as [|h1 [|h2 [|h3 [|h4 s3]]]]; try exact I.
    destruct (hex4 h1 h2 h3 h4) as [uni|]; [|exact I].
    destruct s3 as [|b [|u [|g1 [|g2 [|g3 [|g4 s4]]]]]];
      try (apply K; simpl; lia).
    destruct (is_high_surrogate uni && (b =? 92) && (u =? 117));
      [|apply K; simpl; lia].
    destruct (hex4 g1 g2 g3 g4) as [uni2|]; [|exact I].
    destruct (is_low_surrogate uni2); apply K; simpl; lia.
Qed.

Lemma scan_integer_length s ds r :
  scan_integer s = Some (ds, r) -> (List.length r < List.length s)%nat.
Proof.
  destruct s as [|c s1]; [discriminate|]. unfold scan_integer.
  destruct (in_range 49 57 c).
  - destruct (span_digits s1) as [ds' r'] eqn:E. intros [= <- <-].
    apply span_digits_length in E. simpl. lia.
  - destruct (c =? 48); [|discriminate]. intros [= <- <-]. simpl. lia.
Qed.

Lemma scan_fraction_length r f r1 :
  scan_fraction r = (f, r1) -> (List.length r1 <= List.length r)%nat.
Proof.
  unfold scan_fraction. destruct r as [|dot [|d r']]; try (intros [= <- <-]; lia).
  destruct ((dot =? 46) && is_digit d); [|intros [= <- <-]; lia].
  destruct (span_digits r') as [fs rest] eqn:E. intros [= <- <-].
  apply span_digits_length in E. simpl. lia.
Qed.

Lemma scan_exponent_length r x r2 :
  scan_exponent r = (x, r2) -> (List.length r2 <= List.length r)%nat.
Proof.
  unfold scan_exponent. destruct r as [|e r']; [intros [= <- <-]; lia|].
  destruct ((e =? 101) || (e =? 69)); [|intros [= <- <-]; lia].
  assert (Hs : forall sign r'',
             match r' with
             | [] => ([], r')
             | sg :: r3 =>
                 if (sg =? 45) || (sg =? 43) then ([sg], r3) else ([], r')
             end = (sign, r'') ->
             (List.length r'' <= List.length r')%nat).
  { intros sign r''. destruct r' as [|sg r3]; [intros [= <- <-]; lia|].
    destruct ((sg =? 45) || (sg =? 43)); intros [= <- <-]; simpl; lia. }
  destruct (match r' with [] => _ | _ => _ end) as [sign r''].
  specialize (Hs _ _ eq_refl).
  destruct (span_digits r'') as [es rest] eqn:Es.
  apply span_digits_length in Es.
  destruct es; intros [= <- <-]; simpl; lia.
Qed.

Lemma match_number_length s v r :
  match_number s = Some (v, r) -> (List.length r < List.length s)%nat.
Proof.
  unfold match_number.
  assert (Hs : forall negative s0,
             match s with
             | [] => (false, s)
             | c :: s' => if c =? 45 then (true, s') else (false, s)
             end = (negative, s0) ->
             (List.length s0 <= List.length s)%nat).
  { intros negative s0. destruct s as [|c s']; [intros [= <- <-]; lia|].
    destruct (c =? 45); intros [= <- <-]; simpl; lia. }
  destruct (match s with [] => _ | _ => _ end) as [negative s0].
  specialize (Hs _ _ eq_refl).
  destruct (scan_integer s0) as [[ds r0]|] eqn:Ei; [|discriminate].
  apply scan_integer_length in Ei.
  destruct (scan_fraction r0) as [frac r1] eqn:Ef.
  apply scan_fraction_length in Ef.
  destruct (scan_exponent r1) as [exp r2] eqn:Ee.
  apply scan_exponent_length in Ee.
  destruct frac, exp; intros [= <- <-]; lia.
Qed.

Lemma consumes_weaken {A} s s' (p : parsed A) :
  consumes s' p -> (List.length s' <= List.length s)%nat -> consumes s p.
Proof. destruct p; simpl; auto. lia. Qed.

Ltac ws_bound s :=
  let H := fresh "Hws" in pose proof (skip_ws_length s) as H.

Lemma fuel_suffices fuel :
  (forall s, (2 * List.length s < fuel)%nat -> consumes s (scan_once fuel s)) /\
  (forall acc s,
      (2 * List.length s < fuel)%nat -> consumes s (parse_members fuel acc s)) /\
  (forall acc s,
      (2 * List.length s + 1 < fuel)%nat ->
      consumes s (parse_elements fuel acc s)).
Proof.
  induction fuel as [|f (IHs & IHm & IHe)];
    [repeat split; intros; lia|].
  split; [|split].
  - intros [|c s1] Hf; [exact I|]. cbn [scan_once]. simpl in Hf.
    destruct (c =? 34).
    { apply (consumes_map _ _ (34 :: s1)); [|simpl; lia].
      now apply (scanstring_consumes (List.length s1)). }
    destruct (c =? 123).
    { ws_bound s1. destruct (skip_ws s1) as [|c' s2]; [exact I|].
      destruct (c' =? 125); [simpl in *; lia|].
      apply (consumes_weaken _ (c' :: s2)); [|simpl in *; lia].
      apply IHm. simpl in *. lia. }
    destruct (c =? 91).
    { ws_bound s1. destruct (skip_ws s1) as [|c' s2]; [exact I|].
      destruct (c' =? 93); [simpl in *; lia|].
      apply (consumes_weaken _ (c' :: s2)); [|simpl in *; lia].
      apply IHe. simpl in *. lia. }
    repeat match goal with
           | |- context [if ?b then strip_prefix ?w ?s else None] =>
               let E := fresh "E" in
               destruct (if b then strip_prefix w s else None) eqn:E;
               [destruct b; [|discriminate E];
                apply strip_prefix_length in E; simpl in E |- *; lia|]
           end.
    destruct (match_number (c :: s1)) as [[v rest]|] eqn:En; [|exact I].
    apply match_number_length in En. exact En.
  - intros acc [|c s1] Hf; [exact I|]. cbn [parse_members]. simpl in Hf.
    destruct (negb (c =? 34)); [exact I|].
    pose proof (scanstring_consumes _ s1 (le_n _)) as Hs.
    destruct (scanstring s1) as [key s2| |]; [|exact I | exact Hs].
    simpl in Hs. ws_bound s2.
    destruct (skip_ws s2) as [|c2 s3]; [exact I|].
    destruct (negb (c2 =? 58)); [exact I|].
    ws_bound s3.
    assert (Hv : consumes (skip_ws s3) (scan_once f (skip_ws s3)))
      by (apply IHs; simpl in *; lia).
    destruct (scan_once f (skip_ws s3)) as [val s4| |]; [|exact I | exact Hv].
    simpl in Hv. cbv zeta. ws_bound s4.
    destruct (skip_ws s4) as [|c3 s5]; [exact I|].
    destruct (c3 =? 125); [simpl in *; lia|].
    destruct (c3 =? 44); [|exact I].
    ws_bound s5.
    apply (consumes_weaken _ (skip_ws s5)); [|simpl in *; lia].
    apply IHm. simpl in *. lia.
  - intros acc s Hf. cbn [parse_elements].
    assert (Hv : consumes s (scan_once f s)) by (apply IHs; lia).
    destruct (scan_once f s) as [val s1| |]; [|exact I | exact Hv].
    simpl in Hv. cbv zeta. ws_bound s1.
    destruct (skip_ws s1) as [|c s2]; [exact I|].
    destruct (c =? 93); [simpl in *; lia|].
    destruct (c =? 44); [|exact I].
    ws_bound s2.
    apply (consumes_weaken _ (skip_ws s2)); [|simpl in *; lia].
    apply IHe. simpl in *. lia.
Qed.

(** [json.loads] always comes to a verdict. *)
Lemma json_loads_total s : json_loads s <> OutOfFuel.
Proof.
  unfold json_loads.
  assert (H : consumes (skip_ws s)
                (scan_once (S (2 * List.length s)) (skip_ws s))).
  { apply fuel_suffices. pose proof (skip_ws_length s). lia. }
  destruct (starts_with_bom s); [discriminate|].
  destruct (scan_once _ (skip_ws s)) as [v rest| |];
    [destruct (skip_ws rest); discriminate | discriminate | destruct H].
Qed.

End JsonFacts.

(* ================================================================== *)
(** * Persistence *)



Lemma fs_update_same fs p e : fs_update fs p e p = e.
Proof. unfold fs_update. destruct (str_eq_dec p p); congruence. Qed.

Lemma fs_update_other fs p e q : q <> p -> fs_update fs p e q = fs q.
Proof. unfold fs_update. destruct (str_eq_dec q p); congruence. Qed.

Ltac run_io :=
  repeat (progress
    (unfold save_data, load_data, json_dump, json_load, write_text, open_read,
       open_write, try_except, bind, ret, raise, logging, stock_items,
       with_fs; cbn [handle fst snd st_stock st_log st_fs])).

(** When the file can be opened for writing, [save_data] leaves in it the
    UTF-8 bytes of the JSON text and logs success. *)
Lemma save_data_writes s file :
  let f := file_or_default file in
  match st_fs s f with
  | Absent creatable => creatable
  | Regular _ _ writable => writable
  | Directory => false
  end = true ->
  exists fs',
    save_data file s =
      (Ret tt, mkState (st_stock s) (st_log s ++ [(INFO, MsgSaved f)]) fs') /\
    fs' f =
      match st_fs s f with
      | Regular _ readable writable =>
          Regular (map byte_of (json_dumps (st_stock s))) readable writable
      | _ => Regular (map byte_of (json_dumps (st_stock s))) true true
      end.
Proof.
  intros f Hw. run_io. fold f.
  destruct (st_fs s f) as [[|]|content readable [|]|] eqn:E;
    try discriminate Hw; cbn [handle fst snd st_stock st_log st_fs];
    rewrite ?(utf8_encode_plain _ (json_dumps_plain (st_stock s)));
    eexists; (split; [reflexivity|]); cbn [st_fs];
    now rewrite !fs_update_same.
Qed.

(** When it cannot, the failure is logged and nothing is written. *)
Lemma save_data_fails s file :
  let f := file_or_default file in
  match st_fs s f with
  | Absent creatable => creatable
  | Regular _ _ writable => writable
  | Directory => false
  end = false ->
  exists e,
    is_IOError e = true /\
    save_data file s =
      (Ret tt,
       mkState (st_stock s) (st_log s ++ [(ERROR, MsgWriteFailed f e)])
         (st_fs s)).
Proof.
  intros f Hw. run_io. fold f.
  destruct (st_fs s f) as [[|]|content readable [|]|] eqn:E;
    try discriminate Hw;
    [exists FileNotFoundError | exists PermissionError
    | exists IsADirectoryError]; split; reflexivity.
Qed.

(** The four outcomes the handlers of [load_data] provide for. *)
Lemma load_data_absent s file creatable :
  let f := file_or_default file in
  st_fs s f = Absent creatable ->
  load_data file s =
  (Ret (PyDict []),
   mkState (st_stock s) (st_log s ++ [(WARNING, MsgNotFound f)]) (st_fs s)).
Proof. intros f E. run_io. fold f. now rewrite E. Qed.

Lemma load_data_malformed s file content writable text :
  let f := file_or_default file in
  st_fs s f = Regular content true writable ->
  utf8_decode content = Some text ->
  json_loads (translate_newlines text) = Malformed ->
  load_data file s =
  (Ret (PyDict []),
   mkState (st_stock s) (st_log s ++ [(ERROR, MsgDecodeError f)]) (st_fs s)).
Proof. intros f E Hd Hj. run_io. fold f. now rewrite E, Hd, Hj. Qed.

Lemma load_data_not_object s file content writable text v rest :
  let f := file_or_default file in
  st_fs s f = Regular content true writable ->
  utf8_decode content = Some text ->
  json_loads (translate_newlines text) = Parsed v rest ->
  isinstance_dict v = false ->
  load_data file s =
  (Ret (PyDict []),
   mkState (st_stock s) (st_log s ++ [(ERROR, MsgInvalidFormat f)]) (st_fs s)).
Proof.
  intros f E Hd Hj Hv. run_io. fold f. rewrite E, Hd, Hj. run_io.
  now rewrite Hv.
Qed.

Lemma load_data_object s file content writable text v rest :
  let f := file_or_default file in
  st_fs s f = Regular content true writable ->
  utf8_decode content = Some text ->
  json_loads (translate_newlines text) = Parsed v rest ->
  isinstance_dict v = true ->
  load_data file s = (Ret v, s).
Proof.
  intros f E Hd Hj Hv. run_io. fold f. rewrite E, Hd, Hj. run_io.
  now rewrite Hv.
Qed.

(** The outcomes they do not provide for: bytes that are not UTF-8, a
    file that may not be read, a directory. *)
Lemma load_data_undecodable s file content writable :
  let f := file_or_default file in
  st_fs s f = Regular content true writable ->
  utf8_decode content = None ->
  load_data file s = (Raise UnicodeDecodeError, s).
Proof. intros f E Hd. run_io. fold f. now rewrite E, Hd. Qed.

Lemma load_data_unreadable s file content writable :
  let f := file_or_default file in
  st_fs s f = Regular content false writable ->
  load_data file s = (Raise PermissionError, s).
Proof. intros f E. run_io. fold f. now rewrite E. Qed.

Lemma load_data_directory s file :
  let f := file_or_default file in
  st_fs s f = Directory ->
  load_data file s = (Raise IsADirectoryError, s).
Proof. intros f E. run_io. fold f. now rewrite E. Qed.

Lemma keys_text (d : dict Z) :
  forallb is_text (dict_keys d) = true ->
  Forall (fun e => is_text (fst e) = true) d.
Proof.
  intros H. apply Forall_forall. intros e He.
  rewrite forallb_forall in H. apply H. unfold dict_keys. now apply in_map.
Qed.



(* ================================================================== *)
(** * The claims *)

(** C1: after [add_item(stock, item, qty)] on a non-empty string and an
    integer of any sign, [get_qty(stock, item)] returns the quantity held
    before the call plus [qty], an item that was absent counting as 0. *)
Theorem add_item_then_get_qty (s : state) (name : str) (qty : pyval) (q : Z) :
  name <> [] ->
  int_value qty = Some q ->
  fst ((add_item (PyStr name) qty ;; get_qty name) s) =
  Ret (quantity (st_stock s) name + q).
Proof.
  intros Hn Hq. unfold bind at 1. rewrite (add_item_valid _ _ _ _ Hn Hq).
  run. now rewrite dict_get_set_same.
Qed.

Lemma add_item_then_get_qty_witness :
  fst ((add_item (PyStr banana) (PyInt (-3)) ;; get_qty banana) sample_state)
  = Ret (-5).
Proof.
  apply (add_item_then_get_qty sample_state banana (PyInt (-3)) (-3));
    [discriminate | reflexivity].
Defined.

(** C2: on valid arguments and an item of the dictionary, [remove_item]
    subtracts [qty]; when the result is 0 or less the key is deleted (the
    item is no longer in the dictionary), otherwise the item stays with the
    reduced quantity.  No exception leaves the call. *)
Theorem remove_item_present (s : state) (name : str) (qty : pyval) (q v : Z) :
  name <> [] ->
  int_value qty = Some q ->
  dict_get (st_stock s) name = Some v ->
  fst (remove_item (PyStr name) qty s) = Ret tt /\
  let stock' := st_stock (snd (remove_item (PyStr name) qty s)) in
  if v - q <=? 0 then
    stock' = dict_del (st_stock s) name /\ ~ In name (dict_keys stock')
  else
    stock' = dict_set (st_stock s) name (v - q) /\
    dict_get stock' name = Some (v - q).
Proof.
  intros Hn Hq Hv. rewrite (remove_item_valid_present _ _ _ _ _ Hn Hq Hv).
  destruct (v - q <=? 0); simpl; repeat split.
  - apply dict_get_None, dict_get_del_same.
  - apply dict_get_set_same.
Qed.

Lemma remove_item_present_witness :
  fst (remove_item (PyStr apple) (PyInt 3) sample_state) = Ret tt /\
  st_stock (snd (remove_item (PyStr apple) (PyInt 3) sample_state)) =
    dict_set (st_stock sample_state) apple 7 /\
  dict_get (st_stock (snd (remove_item (PyStr apple) (PyInt 3) sample_state)))
    apple = Some 7.
Proof.
  apply (remove_item_present sample_state apple (PyInt 3) 3 10);
    [discriminate | reflexivity | reflexivity].
Defined.

(** C3: on valid arguments and an item that is not a key, [remove_item]
    leaves the dictionary as it was and returns normally; the [KeyError] is
    caught and a warning is logged. *)
Theorem remove_item_absent (s : state) (name : str) (qty : pyval) (q : Z) :
  name <> [] ->
  int_value qty = Some q ->
  dict_get (st_stock s) name = None ->
  remove_item (PyStr name) qty s =
  (Ret tt,
   mkState (st_stock s) (st_log s ++ [(WARNING, MsgNotInStock name)])
     (st_fs s)).
Proof. exact (remove_item_valid_absent s name qty q). Qed.

Lemma remove_item_absent_witness :
  remove_item (PyStr orange) (PyInt 1) sample_state =
  (Ret tt,
   mkState (st_stock sample_state) [(WARNING, MsgNotInStock orange)]
     (st_fs sample_state)).
Proof.
  apply (remove_item_absent sample_state orange (PyInt 1) 1);
    [discriminate | reflexivity | reflexivity].
Defined.

(** The loop of [check_low_items] appends, in iteration order, the names
    that pass the test. *)
Lemma low_items_loop (t : Z) (items : list (str * Z)) (acc : list str) :
  fold_left
    (fun result e => if snd e <? t then result ++ [fst e] else result)
    items acc =
  acc ++ map fst (filter (fun e => snd e <? t) items).
Proof.
  revert acc. induction items as [|[k v] items IH]; intros acc; simpl.
  - now rewrite app_nil_r.
  - rewrite IH. destruct (v <? t); simpl; [|reflexivity].
    now rewrite <- app_assoc.
Qed.

(** C6: [check_low_items(stock, threshold)] returns exactly the names whose
    quantity is strictly below the threshold, in the dictionary's iteration
    order, and leaves the state alone; on an empty dictionary the answer is
    empty; the threshold left out is 5. *)
Theorem check_low_items_spec (s : state) (t : Z) :
  check_low_items (Some t) s =
    (Ret (map fst (filter (fun e => snd e <? t) (st_stock s))), s) /\
  (forall threshold lg fs,
      check_low_items threshold (mkState [] lg fs) =
        (Ret [], mkState [] lg fs)) /\
  check_low_items None s = check_low_items (Some 5) s.
Proof.
  split; [|split; reflexivity].
  run. now rewrite low_items_loop.
Qed.

(** C7: when [item] is not a non-empty string or [qty] is not an integer,
    [add_item] and [remove_item] both return normally, leave the dictionary
    and the files as they were and add one error record to the log, the
    same in both. *)
Theorem invalid_arguments_are_refused (s : state) (item qty : pyval) :
  (forall name, item = PyStr name -> name = []) \/ int_value qty = None ->
  exists m,
    add_item item qty s =
      (Ret tt, mkState (st_stock s) (st_log s ++ [(ERROR, m)]) (st_fs s)) /\
    remove_item item qty s =
      (Ret tt, mkState (st_stock s) (st_log s ++ [(ERROR, m)]) (st_fs s)).
Proof.
  intros H.
  exists (if invalid_item item then MsgInvalidItem item else MsgInvalidQty qty).
  apply mutators_invalid.
  destruct H as [H|H]; [left; now apply invalid_item_spec
                       | right; now apply isinstance_int_spec].
Qed.

Lemma invalid_arguments_are_refused_witness :
  exists m,
    add_item (PyInt 123) (PyStr (str_of "ten")) sample_state =
      (Ret tt,
       mkState (st_stock sample_state) (st_log sample_state ++ [(ERROR, m)])
         (st_fs sample_state)) /\
    remove_item (PyInt 123) (PyStr (str_of "ten")) sample_state =
      (Ret tt,
       mkState (st_stock sample_state) (st_log sample_state ++ [(ERROR, m)])
         (st_fs sample_state)).
Proof.
  apply (invalid_arguments_are_refused sample_state (PyInt 123)
           (PyStr (str_of "ten"))).
  left. intros name E. discriminate E.
Defined.

(** C8: [get_qty(stock, item)] always returns, and returns the state it
    was given: the stored quantity when [item] is a key, 0 when it is not
    one. *)
Theorem get_qty_total (s : state) (name : str) :
  exists q,
    get_qty name s = (Ret q, s) /\
    match dict_get (st_stock s) name with
    | Some v => q = v /\ In name (dict_keys (st_stock s))
    | None => q = 0 /\ ~ In name (dict_keys (st_stock s))
    end.
Proof.
  exists (quantity (st_stock s) name). split; [reflexivity|].
  unfold quantity.
  destruct (dict_get (st_stock s) name) as [v|] eqn:E; split;
    try reflexivity.
  - destruct (in_dec str_eq_dec name (dict_keys (st_stock s))) as [H|H];
      [exact H|].
    apply dict_get_None in H. congruence.
  - now apply dict_get_None.
Qed.

(** C9: whatever the arguments, after [add_item] or [remove_item] every key
    other than [item] has the quantity it had (and is present exactly when it
    was): the mutators touch the entry named by [item] at most. *)
Theorem mutators_frame (s : state) (item qty : pyval) (k : str) :
  item <> PyStr k ->
  dict_get (st_stock (snd (add_item item qty s))) k = dict_get (st_stock s) k /\
  dict_get (st_stock (snd (remove_item item qty s))) k
    = dict_get (st_stock s) k.
Proof.
  intros Hk.
  destruct (invalid_item item) eqn:Hi.
  { destruct (mutators_invalid s item qty (or_introl Hi)) as [Ea Er].
    rewrite Ea, Er. now split. }
  destruct (isinstance_int qty) eqn:Hq.
  2:{ destruct (mutators_invalid s item qty (or_intror Hq)) as [Ea Er].
      rewrite Ea, Er. now split. }
  destruct item as [| | | |name| |]; try discriminate Hi.
  assert (Hn : name <> []) by (intros ->; discriminate Hi).
  assert (Hne : k <> name) by congruence.
  destruct (int_value qty) as [q|] eqn:Hv;
    [|apply isinstance_int_spec in Hv; congruence].
  split.
  - rewrite (add_item_valid _ _ _ _ Hn Hv). simpl.
    now apply dict_get_set_other.
  - destruct (dict_get (st_stock s) name) as [v|] eqn:Hg.
    + rewrite (remove_item_valid_present _ _ _ _ _ Hn Hv Hg).
      destruct (v - q <=? 0); simpl;
        [now apply dict_get_del_other | now apply dict_get_set_other].
    + rewrite (remove_item_valid_absent _ _ _ _ Hn Hv Hg). reflexivity.
Qed.

Lemma mutators_frame_witness :
  dict_get (st_stock (snd (add_item (PyStr apple) (PyInt 4) sample_state)))
    banana = Some (-2) /\
  dict_get (st_stock (snd (remove_item (PyStr apple) (PyInt 10) sample_state)))
    banana = Some (-2).
Proof.
  apply (mutators_frame sample_state (PyStr apple) (PyInt 4) banana).
  discriminate.
Defined.

(** C10: after [remove_item] on valid arguments, whatever the sign of
    [qty], [item] is not in the dictionary with a quantity of 0 or less; in
    particular removing 0 of an item held at 0 or less deletes it. *)
Theorem remove_item_leaves_no_nonpositive
  (s : state) (name : str) (qty : pyval) (q : Z) :
  name <> [] ->
  int_value qty = Some q ->
  (forall v,
      dict_get (st_stock (snd (remove_item (PyStr name) qty s))) name = Some v ->
      0 < v) /\
  (forall v,
      dict_get (st_stock s) name = Some v -> v <= 0 ->
      ~ In name
          (dict_keys (st_stock (snd (remove_item (PyStr name) (PyInt 0) s))))).
Proof.
  intros Hn Hq. split.
  - intros v'. destruct (dict_get (st_stock s) name) as [v|] eqn:Hg.
    + rewrite (remove_item_valid_present _ _ _ _ _ Hn Hq Hg).
      destruct (v - q <=? 0) eqn:Hle; simpl.
      * rewrite dict_get_del_same. discriminate.
      * rewrite dict_get_set_same. intros [= <-]. lia.
    + rewrite (remove_item_valid_absent _ _ _ _ Hn Hq Hg). simpl.
      congruence.
  - intros v Hg Hv.
    rewrite (remove_item_valid_present s name (PyInt 0) 0 v Hn eq_refl Hg).
    replace (v - 0 <=? 0) with true by (symmetry; apply Z.leb_le; lia).
    simpl. apply dict_get_None, dict_get_del_same.
Qed.

Lemma remove_item_leaves_no_nonpositive_witness :
  (forall v,
      dict_get
        (st_stock (snd (remove_item (PyStr banana) (PyInt (-1)) sample_state)))
        banana = Some v ->
      0 < v) /\
  (forall v,
      dict_get (st_stock sample_state) banana = Some v -> v <= 0 ->
      ~ In banana
          (dict_keys
             (st_stock (snd (remove_item (PyStr banana) (PyInt 0) sample_state))))).
Proof.
  apply (remove_item_leaves_no_nonpositive sample_state banana (PyInt (-1))
           (-1)); [discriminate | reflexivity].
Defined.

(** C4 (as amended): for a dictionary whose keys are distinct strings of
    Unicode text, when the file can be opened for writing and then for
    reading, [save_data(stock, path)] followed by [load_data(path)] returns
    a dictionary equal to [stock], entry for entry and in the same order. *)
Theorem save_load_round_trip (s : state) (file : option (list N)) :
  NoDup (dict_keys (st_stock s)) ->
  forallb is_text (dict_keys (st_stock s)) = true ->
  opens_both_ways (st_fs s (file_or_default file)) = true ->
  fst ((save_data file ;; load_data file) s) = Ret (pydict_of_stock (st_stock s)).
Proof.
  intros Hnd Ht Ho.
  destruct (save_data_writes s file) as (fs' & Es & Ef).
  { destruct (st_fs s (file_or_default file)) as [c|c r w|];
      simpl in Ho |- *; try exact Ho; try discriminate.
    now apply andb_true_iff in Ho. }
  unfold bind at 1. rewrite Es.
  pose proof (json_dumps_plain (st_stock s)) as Hp.
  assert (Er : exists w,
             fs' (file_or_default file) =
             Regular (map byte_of (json_dumps (st_stock s))) true w).
  { rewrite Ef. destruct (st_fs s (file_or_default file)) as [c|c r w|];
      simpl in Ho; try discriminate; eexists; try reflexivity.
    apply andb_true_iff in Ho. destruct Ho as [-> _]. reflexivity. }
  destruct Er as [w Er].
  erewrite load_data_object;
    [reflexivity | exact Er | apply (utf8_decode_plain _ Hp) | | reflexivity].
  rewrite (translate_newlines_plain _ Hp).
  apply json_loads_dumps; [exact Hnd | now apply keys_text].
Qed.

Lemma save_load_round_trip_witness :
  fst ((save_data None ;; load_data None) sample_state) =
  Ret (pydict_of_stock (st_stock sample_state)).
Proof.
  apply (save_load_round_trip sample_state None).
  - repeat constructor; simpl; intuition discriminate.
  - reflexivity.
  - reflexivity.
Defined.

(** C4 as stated fails where the file cannot be written: [save_data] logs
    the [IOError] and returns, and [load_data] then finds no file and
    returns the empty dictionary, not the two entries of [stock]. *)
Lemma unwritable_file_breaks_round_trip :
  fst ((save_data None ;; load_data None) locked_state) <>
  Ret (pydict_of_stock (st_stock locked_state)).
Proof. vm_compute. discriminate. Qed.

(** What the two calls do there. *)
Example unwritable_file_run :
  (save_data None ;; load_data None) locked_state =
  (Ret (PyDict []),
   mkState (st_stock locked_state)
     [(ERROR, MsgWriteFailed default_file FileNotFoundError);
      (WARNING, MsgNotFound default_file)]
     (st_fs locked_state)).
Proof. reflexivity. Qed.

(** Why the keys have to be text: the encoder writes a high and a low
    surrogate that stand side by side as two escapes, and the decoder reads
    two such escapes as one character. *)
Example surrogate_pair_is_joined :
  json_loads (json_dumps [([0xD83D; 0xDE00]%N, 1)]) =
  Parsed (PyDict [([0x1F600]%N, PyInt 1)]) [].
Proof. vm_compute. reflexivity. Qed.

(** C5: [load_data] on a file whose bytes are not UTF-8: the decoding
    error is raised inside [json.load], none of the two handlers takes it,
    and it leaves the function; nothing is logged and no dictionary is
    returned. *)
Theorem load_data_raises_on_undecodable_bytes :
  load_data None garbled_state = (Raise UnicodeDecodeError, garbled_state).
Proof.
  apply (load_data_undecodable garbled_state None [xff] true); reflexivity.
Qed.

(* ================================================================== *)
(** * The demonstration script *)

(** The calls [main] makes on an empty inventory: two additions, one of
    them negative, a refused addition, a removal, a removal of an item that
    is not there. *)
Example demonstration_script :
  (add_item (PyStr apple) (PyInt 10) ;;
   add_item (PyStr banana) (PyInt (-2)) ;;
   add_item (PyInt 123) (PyStr (str_of "ten")) ;;
   remove_item (PyStr apple) (PyInt 3) ;;
   remove_item (PyStr orange) (PyInt 1) ;;
   low <- check_low_items None ;;
   n <- get_qty apple ;;
   ret (n, low)) (mkState [] [] fresh_fs) =
  (Ret (7, [banana]),
   mkState [(apple, 7); (banana, -2)]
     [(INFO, MsgAdded 10 apple 10);
      (INFO, MsgAdded (-2) banana (-2));
      (ERROR, MsgInvalidItem (PyInt 123));
      (INFO, MsgRemoved 3 apple 7);
      (WARNING, MsgNotInStock orange)]
     fresh_fs).
Proof. reflexivity. Qed.

(* ================================================================== *)
(** * Further facts about dictionaries *)

Section MoreDictFacts.
Context {V : Type}.
Implicit Types (d : dict V) (k : list N) (v : V).

Lemma dict_set_set d k v w : dict_set (dict_set d k v) k w = dict_set d k w.
Proof.
  induction d as [|[k' v'] d IH]; simpl.
  - destruct (str_eq_dec k k); congruence.
  - destruct (str_eq_dec k k') as [E|N]; simpl;
      destruct (str_eq_dec k k'); try contradiction; congruence.
Qed.

Lemma dict_set_same_value d k v : dict_get d k = Some v -> dict_set d k v = d.
Proof.
  induction d as [|[k' v'] d IH]; simpl; [discriminate|].
  destruct (str_eq_dec k k'); [congruence|].
  intros H. now rewrite (IH H).
Qed.

Lemma dict_keys_del d k :
  dict_keys (dict_del d k) =
  filter (fun k' => if str_eq_dec k k' then false else true) (dict_keys d).
Proof.
  induction d as [|[k' v'] d IH]; simpl; [reflexivity|].
  destruct (str_eq_dec k k'); simpl; [exact IH|].
  f_equal. exact IH.
Qed.

Lemma dict_get_In d k v :
  NoDup (dict_keys d) -> (In (k, v) d <-> dict_get d k = Some v).
Proof.
  induction d as [|[k' v'] d IH]; simpl; intros Hnd.
  - split; [tauto | discriminate].
  - inversion Hnd as [|? ? Hn Hd]; subst.
    destruct (str_eq_dec k k') as [E|N].
    + subst k'. split.
      * intros [H|H]; [congruence|].
        exfalso. apply Hn. change k with (fst (k, v)). now apply in_map.
      * intros [= ->]. now left.
    + rewrite <- (IH Hd). split; [intros [H|H]; [congruence | exact H] | tauto].
Qed.

Lemma dict_get_Some_In d k v : dict_get d k = Some v -> In (k, v) d.
Proof.
  induction d as [|[k' v'] d IH]; simpl; [discriminate|].
  destruct (str_eq_dec k k'); [intros [= ->]; left; congruence | auto].
Qed.
End MoreDictFacts.

Lemma positive_set d k v :
  positive_stock d -> 0 < v -> positive_stock (dict_set d k v).
Proof.
  unfold positive_stock. intros H Hv.
  induction d as [|[k' v'] d IH]; simpl.
  - now repeat constructor.
  - inversion H as [|? ? Hp Hd]; subst.
    destruct (str_eq_dec k k'); constructor; auto.
Qed.

Lemma positive_del d k : positive_stock d -> positive_stock (dict_del d k).
Proof.
  unfold positive_stock, dict_del. intros H.
  apply Forall_forall. intros e He. apply filter_In in He.
  rewrite Forall_forall in H. now apply H.
Qed.

(* ================================================================== *)
(** * More on the store *)

Lemma valid_arguments_inv item qty :
  valid_arguments item qty = true ->
  exists name q, item = PyStr name /\ name <> [] /\ int_value qty = Some q.
Proof.
  unfold valid_arguments. intros H. apply andb_true_iff in H.
  destruct H as [Hi Hq]. apply negb_true_iff in Hi.
  destruct item as [| | | |name| |]; try discriminate Hi.
  destruct (int_value qty) as [q|] eqn:E.
  - exists name, q. repeat split. intros ->. discriminate Hi.
  - apply isinstance_int_spec in E. congruence.
Qed.

Lemma invalid_arguments_inv item qty :
  valid_arguments item qty = false ->
  invalid_item item = true \/ isinstance_int qty = false.
Proof.
  unfold valid_arguments. intros H. apply andb_false_iff in H.
  destruct H as [H|H]; [left; now apply negb_false_iff | now right].
Qed.

(** X1: [add_item] returns normally whatever it is given, of any type: the
    files are as they were and the log has one more record, at level INFO when
    both guards pass and at level ERROR when one refuses. *)
Theorem add_item_always_returns (s : state) (item qty : pyval) :
  exists stock' m,
    add_item item qty s =
      (Ret tt,
       mkState stock'
         (st_log s ++ [(if valid_arguments item qty then INFO else ERROR, m)])
         (st_fs s)).
Proof.
  destruct (valid_arguments item qty) eqn:Hv.
  - destruct (valid_arguments_inv _ _ Hv) as (name & q & -> & Hn & Hq).
    rewrite (add_item_valid _ _ _ _ Hn Hq). cbv zeta. now do 2 eexists.
  - destruct (mutators_invalid s item qty (invalid_arguments_inv _ _ Hv))
      as [-> _]. now do 2 eexists.
Qed.

(** X2: [remove_item] returns normally whatever it is given: the files are as
    they were and the log has one more record, at level ERROR when a guard
    refuses, WARNING when the item is not in the dictionary, INFO when it is.
    *)
Theorem remove_item_always_returns (s : state) (item qty : pyval) :
  exists stock' m,
    remove_item item qty s =
      (Ret tt,
       mkState stock'
         (st_log s ++
          [(if valid_arguments item qty then
              match item with
              | PyStr name =>
                  match dict_get (st_stock s) name with
                  | Some _ => INFO
                  | None => WARNING
                  end
              | _ => ERROR
              end
            else ERROR, m)])
         (st_fs s)).
Proof.
  destruct (valid_arguments item qty) eqn:Hv.
  - destruct (valid_arguments_inv _ _ Hv) as (name & q & -> & Hn & Hq).
    destruct (dict_get (st_stock s) name) as [v|] eqn:Hg.
    + rewrite (remove_item_valid_present _ _ _ _ _ Hn Hq Hg).
      destruct (v - q <=? 0); now do 2 eexists.
    + rewrite (remove_item_valid_absent _ _ _ _ Hn Hq Hg). now do 2 eexists.
  - destruct (mutators_invalid s item qty (invalid_arguments_inv _ _ Hv))
      as [_ ->]. now do 2 eexists.
Qed.

(** X3: adding a quantity and then removing the same quantity gives back the
    dictionary it started from, entry for entry and in the same order, when
    the item was absent or held a positive quantity. *)
Theorem add_then_remove_restores (s : state) (name : list N) (qty : pyval) (q : Z) :
  name <> [] ->
  int_value qty = Some q ->
  (forall v, dict_get (st_stock s) name = Some v -> 0 < v) ->
  st_stock (snd ((add_item (PyStr name) qty ;; remove_item (PyStr name) qty) s))
  = st_stock s.
Proof.
  intros Hn Hq Hpos. unfold bind.
  rewrite (add_item_valid _ _ _ _ Hn Hq). cbv beta iota zeta.
  set (total := quantity (st_stock s) name + q).
  rewrite (remove_item_valid_present _ name qty q total Hn Hq)
    by (simpl; apply dict_get_set_same).
  unfold total, quantity. cbn [st_stock].
  destruct (dict_get (st_stock s) name) as [v|] eqn:Hg.
  - specialize (Hpos v eq_refl).
    replace (v + q - q <=? 0) with false by (symmetry; apply Z.leb_gt; lia).
    cbn [snd st_stock]. rewrite dict_set_set.
    replace (v + q - q) with v by lia. now apply dict_set_same_value.
  - replace (0 + q - q <=? 0) with true by (symmetry; apply Z.leb_le; lia).
    cbn [snd st_stock]. rewrite dict_del_set. now apply dict_del_absent.
Qed.

Lemma add_then_remove_restores_witness :
  st_stock (snd ((add_item (PyStr apple) (PyInt 5) ;;
                  remove_item (PyStr apple) (PyInt 5))
                   (mkState [(apple, 10); (banana, 3)] [] fresh_fs)))
  = [(apple, 10); (banana, 3)].
Proof.
  apply (add_then_remove_restores
           (mkState [(apple, 10); (banana, 3)] [] fresh_fs) apple (PyInt 5) 5);
    [discriminate | reflexivity |].
  intros v. vm_compute. intros [= <-]. reflexivity.
Defined.

(** X4: two additions to one item leave the dictionary that one addition of
    the sum leaves. *)
Theorem add_item_accumulates (s : state) (name : list N) (q1 q2 : Z) :
  name <> [] ->
  st_stock (snd ((add_item (PyStr name) (PyInt q1) ;;
                  add_item (PyStr name) (PyInt q2)) s))
  = st_stock (snd (add_item (PyStr name) (PyInt (q1 + q2)) s)).
Proof.
  intros Hn. unfold bind.
  rewrite (add_item_valid s name (PyInt q1) q1 Hn eq_refl).
  cbv beta iota zeta.
  rewrite !(add_item_valid _ name (PyInt _) _ Hn eq_refl).
  cbv zeta. cbn [snd st_stock]. unfold quantity.
  rewrite dict_get_set_same, dict_set_set. f_equal. lia.
Qed.

Lemma add_item_accumulates_witness :
  st_stock (snd ((add_item (PyStr apple) (PyInt 4) ;;
                  add_item (PyStr apple) (PyInt (-9))) sample_state))
  = st_stock (snd (add_item (PyStr apple) (PyInt (4 + -9)) sample_state)).
Proof. apply (add_item_accumulates sample_state apple 4 (-9)). discriminate. Defined.

(** X5: two removals from one item, the second of a quantity that is not
    negative, leave the dictionary that one removal of the sum leaves, the
    deleted key included. *)
Theorem remove_item_accumulates (s : state) (name : list N) (q1 q2 : Z) :
  name <> [] ->
  0 <= q2 ->
  st_stock (snd ((remove_item (PyStr name) (PyInt q1) ;;
                  remove_item (PyStr name) (PyInt q2)) s))
  = st_stock (snd (remove_item (PyStr name) (PyInt (q1 + q2)) s)).
Proof.
  intros Hn Hq2. unfold bind.
  destruct (dict_get (st_stock s) name) as [v|] eqn:Hg.
  - rewrite (remove_item_valid_present s name (PyInt q1) q1 v Hn eq_refl Hg).
    rewrite (remove_item_valid_present s name (PyInt (q1 + q2)) _ v Hn eq_refl Hg).
    destruct (v - q1 <=? 0) eqn:E1; cbv beta iota.
    + apply Z.leb_le in E1.
      replace (v - (q1 + q2) <=? 0) with true by (symmetry; apply Z.leb_le; lia).
      rewrite (remove_item_valid_absent _ name (PyInt q2) q2 Hn eq_refl)
        by (simpl; apply dict_get_del_same).
      reflexivity.
    + rewrite (remove_item_valid_present _ name (PyInt q2) q2 (v - q1) Hn eq_refl)
        by (simpl; apply dict_get_set_same).
      replace (v - q1 - q2) with (v - (q1 + q2)) by lia.
      destruct (v - (q1 + q2) <=? 0); cbn [snd st_stock].
      * apply dict_del_set.
      * apply dict_set_set.
  - rewrite (remove_item_valid_absent s name (PyInt q1) q1 Hn eq_refl Hg).
    cbv beta iota.
    rewrite (remove_item_valid_absent _ name (PyInt q2) q2 Hn eq_refl)
      by exact Hg.
    now rewrite (remove_item_valid_absent s name (PyInt (q1 + q2)) _ Hn eq_refl Hg).
Qed.

Lemma remove_item_accumulates_witness :
  st_stock (snd ((remove_item (PyStr apple) (PyInt 4) ;;
                  remove_item (PyStr apple) (PyInt 6)) sample_state))
  = st_stock (snd (remove_item (PyStr apple) (PyInt (4 + 6)) sample_state)).
Proof.
  apply (remove_item_accumulates sample_state apple 4 6); [discriminate | lia].
Defined.

(** X6: when every quantity in the dictionary is positive, it still is after
    [remove_item], whatever the arguments. *)
Theorem remove_item_keeps_positive (s : state) (item qty : pyval) :
  positive_stock (st_stock s) ->
  positive_stock (st_stock (snd (remove_item item qty s))).
Proof.
  intros Hp. destruct (valid_arguments item qty) eqn:Hv.
  - destruct (valid_arguments_inv _ _ Hv) as (name & q & -> & Hn & Hq).
    destruct (dict_get (st_stock s) name) as [v|] eqn:Hg.
    + rewrite (remove_item_valid_present _ _ _ _ _ Hn Hq Hg).
      destruct (v - q <=? 0) eqn:E; cbn [snd st_stock].
      * now apply positive_del.
      * apply positive_set; [exact Hp | apply Z.leb_gt in E; lia].
    + now rewrite (remove_item_valid_absent _ _ _ _ Hn Hq Hg).
  - destruct (mutators_invalid s item qty (invalid_arguments_inv _ _ Hv))
      as [_ ->]. exact Hp.
Qed.

Lemma remove_item_keeps_positive_witness :
  positive_stock
    (st_stock (snd (remove_item (PyStr apple) (PyInt (-4))
                      (mkState [(apple, 10); (banana, 3)] [] fresh_fs)))).
Proof.
  apply (remove_item_keeps_positive
           (mkState [(apple, 10); (banana, 3)] [] fresh_fs)).
  repeat constructor.
Defined.

(** X7: when every quantity in the dictionary is positive, it still is after
    [add_item] of a positive quantity (or of arguments the guards refuse). *)
Theorem add_item_keeps_positive (s : state) (item qty : pyval) :
  positive_stock (st_stock s) ->
  (forall q, int_value qty = Some q -> 0 < q) ->
  positive_stock (st_stock (snd (add_item item qty s))).
Proof.
  intros Hp Hq0. destruct (valid_arguments item qty) eqn:Hv.
  - destruct (valid_arguments_inv _ _ Hv) as (name & q & -> & Hn & Hq).
    rewrite (add_item_valid _ _ _ _ Hn Hq). cbv zeta. cbn [snd st_stock].
    apply positive_set; [exact Hp|]. specialize (Hq0 q Hq).
    unfold quantity. destruct (dict_get (st_stock s) name) as [v|] eqn:Hg;
      [|lia].
    apply dict_get_Some_In in Hg. unfold positive_stock in Hp.
    rewrite Forall_forall in Hp. specialize (Hp _ Hg). simpl in Hp. lia.
  - destruct (mutators_invalid s item qty (invalid_arguments_inv _ _ Hv))
      as [-> _]. exact Hp.
Qed.

Lemma add_item_keeps_positive_witness :
  positive_stock
    (st_stock (snd (add_item (PyStr orange) (PyInt 2)
                      (mkState [(apple, 10); (banana, 3)] [] fresh_fs)))).
Proof.
  apply (add_item_keeps_positive
           (mkState [(apple, 10); (banana, 3)] [] fresh_fs)).
  - repeat constructor.
  - intros q [= <-]. lia.
Defined.

(** X8: the keys of the dictionary stay distinct through [add_item] and
    [remove_item], whatever the arguments. *)
Theorem mutators_keep_keys_distinct (s : state) (item qty : pyval) :
  NoDup (dict_keys (st_stock s)) ->
  NoDup (dict_keys (st_stock (snd (add_item item qty s)))) /\
  NoDup (dict_keys (st_stock (snd (remove_item item qty s)))).
Proof.
  intros Hnd. destruct (valid_arguments item qty) eqn:Hv.
  - destruct (valid_arguments_inv _ _ Hv) as (name & q & -> & Hn & Hq).
    split.
    + rewrite (add_item_valid _ _ _ _ Hn Hq). now apply dict_set_NoDup.
    + destruct (dict_get (st_stock s) name) as [v|] eqn:Hg.
      * rewrite (remove_item_valid_present _ _ _ _ _ Hn Hq Hg).
        destruct (v - q <=? 0); cbn [snd st_stock];
          [now apply dict_del_NoDup | now apply dict_set_NoDup].
      * now rewrite (remove_item_valid_absent _ _ _ _ Hn Hq Hg).
  - destruct (mutators_invalid s item qty (invalid_arguments_inv _ _ Hv))
      as [-> ->]. now split.
Qed.

Lemma mutators_keep_keys_distinct_witness :
  NoDup (dict_keys (st_stock (snd (add_item (PyStr orange) (PyInt 1) sample_state))))
  /\
  NoDup (dict_keys (st_stock (snd (remove_item (PyStr orange) (PyInt 1) sample_state)))).
Proof.
  apply (mutators_keep_keys_distinct sample_state).
  repeat constructor; simpl; intuition discriminate.
Defined.

(** X9: [add_item] on valid arguments keeps the iteration order: a key that
    was there stays where it was, a new key goes last. *)
Theorem add_item_key_order (s : state) (name : list N) (qty : pyval) (q : Z) :
  name <> [] ->
  int_value qty = Some q ->
  dict_keys (st_stock (snd (add_item (PyStr name) qty s))) =
  match dict_get (st_stock s) name with
  | Some _ => dict_keys (st_stock s)
  | None => dict_keys (st_stock s) ++ [name]
  end.
Proof.
  intros Hn Hq. rewrite (add_item_valid _ _ _ _ Hn Hq). cbv zeta.
  cbn [snd st_stock]. apply dict_keys_set.
Qed.

Lemma add_item_key_order_witness :
  dict_keys (st_stock (snd (add_item (PyStr orange) (PyInt 1) sample_state))) =
  [apple; banana; orange].
Proof.
  apply (add_item_key_order sample_state orange (PyInt 1) 1);
    [discriminate | reflexivity].
Defined.

(** X10: [remove_item] on a present item keeps the order of the keys: all of
    them when the item stays, all the others in their order when it is
    deleted. *)
Theorem remove_item_key_order (s : state) (name : list N) (qty : pyval) (q v : Z) :
  name <> [] ->
  int_value qty = Some q ->
  dict_get (st_stock s) name = Some v ->
  dict_keys (st_stock (snd (remove_item (PyStr name) qty s))) =
  if v - q <=? 0 then
    filter (fun k => if str_eq_dec name k then false else true)
      (dict_keys (st_stock s))
  else dict_keys (st_stock s).
Proof.
  intros Hn Hq Hg. rewrite (remove_item_valid_present _ _ _ _ _ Hn Hq Hg).
  destruct (v - q <=? 0); cbn [snd st_stock].
  - apply dict_keys_del.
  - rewrite dict_keys_set. now rewrite Hg.
Qed.

Lemma remove_item_key_order_witness :
  dict_keys (st_stock (snd (remove_item (PyStr apple) (PyInt 10) sample_state)))
  = [banana].
Proof.
  apply (remove_item_key_order sample_state apple (PyInt 10) 10 10);
    [discriminate | reflexivity | reflexivity].
Defined.

(** X11: after [remove_item] on valid arguments and a present item, [get_qty]
    returns the difference, or 0 when the difference is 0 or less. *)
Theorem remove_item_then_get_qty
  (s : state) (name : list N) (qty : pyval) (q v : Z) :
  name <> [] ->
  int_value qty = Some q ->
  dict_get (st_stock s) name = Some v ->
  fst ((remove_item (PyStr name) qty ;; get_qty name) s) = Ret (Z.max 0 (v - q)).
Proof.
  intros Hn Hq Hg. unfold bind.
  rewrite (remove_item_valid_present _ _ _ _ _ Hn Hq Hg).
  destruct (v - q <=? 0) eqn:E; cbv beta iota; unfold get_qty, stock_get;
    cbn [fst st_stock].
  - rewrite dict_get_del_same. apply Z.leb_le in E. f_equal. lia.
  - rewrite dict_get_set_same. apply Z.leb_gt in E. f_equal. lia.
Qed.

Lemma remove_item_then_get_qty_witness :
  fst ((remove_item (PyStr apple) (PyInt 12) ;; get_qty apple) sample_state)
  = Ret 0.
Proof.
  apply (remove_item_then_get_qty sample_state apple (PyInt 12) 12 10);
    [discriminate | reflexivity | reflexivity].
Defined.

(** X12: after [add_item] on valid arguments the item is a key, also when the
    total is 0 or negative, and every key that was there still is. *)
Theorem add_item_never_deletes (s : state) (name : list N) (qty : pyval) (q : Z) :
  name <> [] ->
  int_value qty = Some q ->
  In name (dict_keys (st_stock (snd (add_item (PyStr name) qty s)))) /\
  (forall k, In k (dict_keys (st_stock s)) ->
             In k (dict_keys (st_stock (snd (add_item (PyStr name) qty s))))).
Proof.
  intros Hn Hq. rewrite (add_item_valid _ _ _ _ Hn Hq). cbv zeta.
  cbn [snd st_stock]. rewrite dict_keys_set.
  destruct (dict_get (st_stock s) name) as [v|] eqn:Hg; split.
  - destruct (in_dec str_eq_dec name (dict_keys (st_stock s))) as [H|H];
      [exact H|]. apply dict_get_None in H. congruence.
  - auto.
  - apply in_or_app. right. now left.
  - intros k Hk. apply in_or_app. now left.
Qed.

Lemma add_item_never_deletes_witness :
  In banana
    (dict_keys (st_stock (snd (add_item (PyStr banana) (PyInt (-5)) sample_state))))
  /\
  (forall k, In k (dict_keys (st_stock sample_state)) ->
             In k (dict_keys
                     (st_stock
                        (snd (add_item (PyStr banana) (PyInt (-5)) sample_state))))).
Proof.
  apply (add_item_never_deletes sample_state banana (PyInt (-5)) (-5));
    [discriminate | reflexivity].
Defined.

(* ================================================================== *)
(** * More on the low-stock scan *)

Lemma check_low_items_value s t :
  check_low_items (Some t) s =
  (Ret (map fst (filter (fun e => snd e <? t) (st_stock s))), s).
Proof. run. now rewrite low_items_loop. Qed.

(** X13: on a dictionary with distinct keys, [check_low_items] reports an item
    exactly when it is a key and [get_qty] returns less than the threshold for
    it. *)
Theorem check_low_items_agrees_with_get_qty (s : state) (t : Z) :
  NoDup (dict_keys (st_stock s)) ->
  exists low,
    check_low_items (Some t) s = (Ret low, s) /\
    forall k,
      In k low <->
      In k (dict_keys (st_stock s)) /\
      exists q, get_qty k s = (Ret q, s) /\ q < t.
Proof.
  intros Hnd. eexists. split; [apply check_low_items_value|].
  intros k. rewrite in_map_iff. split.
  - intros [[k' v] [Hk Hin]]. simpl in Hk. subst k'.
    apply filter_In in Hin. destruct Hin as [Hin Hlt]. simpl in Hlt.
    split; [change k with (fst (k, v)); now apply in_map|].
    exists v. split; [|lia].
    unfold get_qty, stock_get.
    now rewrite (proj1 (dict_get_In _ _ _ Hnd) Hin).
  - intros [Hk [q [Hq Hlt]]]. unfold get_qty, stock_get in Hq.
    injection Hq as Hq.
    destruct (dict_get (st_stock s) k) as [v|] eqn:Hg.
    + subst q. exists (k, v). split; [reflexivity|].
      apply filter_In. split; [now apply dict_get_Some_In | simpl; lia].
    + apply dict_get_None in Hg. contradiction.
Qed.

Lemma check_low_items_agrees_with_get_qty_witness :
  exists low,
    check_low_items (Some 5) sample_state = (Ret low, sample_state) /\
    forall k,
      In k low <->
      In k (dict_keys (st_stock sample_state)) /\
      exists q, get_qty k sample_state = (Ret q, sample_state) /\ q < 5.
Proof.
  apply (check_low_items_agrees_with_get_qty sample_state 5).
  repeat constructor; simpl; intuition discriminate.
Defined.

(** X14: raising the threshold only adds items to what [check_low_items]
    reports, and it never reports more items than the dictionary has entries.
    *)
Theorem check_low_items_monotone (s : state) (t1 t2 : Z) :
  t1 <= t2 ->
  exists low1 low2,
    check_low_items (Some t1) s = (Ret low1, s) /\
    check_low_items (Some t2) s = (Ret low2, s) /\
    (forall k, In k low1 -> In k low2) /\
    (List.length low1 <= List.length low2 <= List.length (st_stock s))%nat.
Proof.
  intros Ht. do 2 eexists.
  split; [apply check_low_items_value|].
  split; [apply check_low_items_value|].
  split.
  - intros k. rewrite !in_map_iff. intros [e [He Hin]]. exists e.
    split; [exact He|]. apply filter_In in Hin. apply filter_In.
    destruct Hin as [Hin Hlt]. split; [exact Hin|].
    apply Z.ltb_lt in Hlt. apply Z.ltb_lt. lia.
  - rewrite !length_map. split.
    + induction (st_stock s) as [|[k v] d IH]; simpl; [lia|].
      destruct (v <? t1) eqn:E1; destruct (v <? t2) eqn:E2; simpl; lia.
    + apply filter_length_le.
Qed.

Lemma check_low_items_monotone_witness :
  exists low1 low2,
    check_low_items (Some 0) sample_state = (Ret low1, sample_state) /\
    check_low_items (Some 20) sample_state = (Ret low2, sample_state) /\
    (forall k, In k low1 -> In k low2) /\
    (List.length low1 <= List.length low2
     <= List.length (st_stock sample_state))%nat.
Proof. apply (check_low_items_monotone sample_state 0 20). lia. Defined.

(* ================================================================== *)
(** * More on persistence *)

(** A successful [save_data], path by path. *)
Lemma save_data_success s file :
  let f := file_or_default file in
  can_write (st_fs s f) = true ->
  exists fs',
    save_data file s =
      (Ret tt, mkState (st_stock s) (st_log s ++ [(INFO, MsgSaved f)]) fs') /\
    forall p,
      fs' p =
      if str_eq_dec p f then
        saved_entry (st_fs s f) (map byte_of (json_dumps (st_stock s)))
      else st_fs s p.
Proof.
  intros f Hw. run_io. fold f.
  destruct (st_fs s f) as [[|]|content readable [|]|] eqn:E;
    try discriminate Hw; cbn [handle fst snd st_stock st_log st_fs];
    rewrite (utf8_encode_plain _ (json_dumps_plain (st_stock s)));
    eexists; (split; [reflexivity|]); intros p; cbn [st_fs];
    unfold fs_update; destruct (str_eq_dec p f) as [->|Hp];
    try reflexivity; destruct (str_eq_dec f f); try congruence; reflexivity.
Qed.

(** X15: [save_data] returns normally in every state, leaves the dictionary
    and every other path alone and logs one record: success when the file
    could be opened for writing, otherwise an error, with no file changed. *)
Theorem save_data_always_returns (s : state) (file : option (list N)) :
  exists r fs',
    save_data file s =
      (Ret tt, mkState (st_stock s) (st_log s ++ [r]) fs') /\
    (forall p, p <> file_or_default file -> fs' p = st_fs s p) /\
    if can_write (st_fs s (file_or_default file)) then
      r = (INFO, MsgSaved (file_or_default file))
    else
      fst r = ERROR /\ forall p, fs' p = st_fs s p.
Proof.
  destruct (can_write (st_fs s (file_or_default file))) eqn:Hw.
  - destruct (save_data_success s file Hw) as (fs' & E & Hfs).
    exists (INFO, MsgSaved (file_or_default file)), fs'.
    split; [exact E|]. split; [|reflexivity].
    intros p Hp. rewrite Hfs.
    destruct (str_eq_dec p (file_or_default file)); [contradiction | reflexivity].
  - destruct (save_data_fails s file Hw) as (e & He & E).
    exists (ERROR, MsgWriteFailed (file_or_default file) e), (st_fs s).
    split; [exact E|]. now repeat split.
Qed.

(** X16: saving twice leaves every file as saving once leaves it. *)
Theorem save_data_twice (s : state) (file : option (list N)) :
  forall p,
    st_fs (snd ((save_data file ;; save_data file) s)) p =
    st_fs (snd (save_data file s)) p.
Proof.
  intros p. unfold bind.
  destruct (can_write (st_fs s (file_or_default file))) eqn:Hw.
  - destruct (save_data_success s file Hw) as (fs1 & E1 & H1).
    rewrite E1. cbv beta iota.
    set (s1 := mkState _ _ fs1).
    assert (Hw1 : can_write (st_fs s1 (file_or_default file)) = true).
    { cbn [st_fs s1]. rewrite H1.
      destruct (str_eq_dec _ _); [|congruence].
      destruct (st_fs s (file_or_default file)) as [c|c r w|];
        simpl in Hw |- *; congruence. }
    destruct (save_data_success s1 file Hw1) as (fs2 & E2 & H2).
    rewrite E2. cbn [snd st_fs st_stock s1] in *.
    rewrite H2, !H1.
    destruct (str_eq_dec p (file_or_default file)) as [->|Hp]; [|reflexivity].
    destruct (str_eq_dec _ _); [|congruence].
    now destruct (st_fs s (file_or_default file)).
  - destruct (save_data_fails s file Hw) as (e & He & E).
    rewrite E. cbv beta iota.
    set (s1 := mkState _ _ _).
    destruct (save_data_fails s1 file Hw) as (e' & He' & E').
    now rewrite E'.
Qed.

(** X17: when the file can be opened for writing, [save_data] leaves a regular
    file whose bytes are newlines and printable ASCII only and decode to the
    JSON text of the dictionary. *)
Theorem save_data_writes_plain_ascii (s : state) (file : option (list N)) :
  can_write (st_fs s (file_or_default file)) = true ->
  exists content readable writable,
    st_fs (snd (save_data file s)) (file_or_default file) =
      Regular content readable writable /\
    utf8_decode content = Some (json_dumps (st_stock s)) /\
    Forall (fun b => plain (Byte.to_N b)) content.
Proof.
  intros Hw. destruct (save_data_success s file Hw) as (fs' & E & Hfs).
  rewrite E. cbn [snd st_fs]. rewrite Hfs.
  destruct (str_eq_dec _ _); [|congruence].
  pose proof (json_dumps_plain (st_stock s)) as Hp.
  assert (Hb : Forall (fun b => plain (Byte.to_N b))
                 (map byte_of (json_dumps (st_stock s)))).
  { apply Forall_map. revert Hp. apply Forall_impl. intros c Hc.
    rewrite to_N_byte_of; [exact Hc | destruct Hc; lia]. }
  destruct (st_fs s (file_or_default file)) as [c|c r w|]; simpl;
    do 3 eexists; (split; [reflexivity|]);
    (split; [now apply utf8_decode_plain | exact Hb]).
Qed.

Lemma save_data_writes_plain_ascii_witness :
  exists content readable writable,
    st_fs (snd (save_data None sample_state)) (file_or_default None) =
      Regular content readable writable /\
    utf8_decode content = Some (json_dumps (st_stock sample_state)) /\
    Forall (fun b => plain (Byte.to_N b)) content.
Proof. apply (save_data_writes_plain_ascii sample_state None). reflexivity. Defined.

(** X18: [load_data] never changes the caller's dictionary or any file,
    whether it returns or raises, and logs at most one record. *)
Theorem load_data_reads_only (s : state) (file : option (list N)) :
  st_stock (snd (load_data file s)) = st_stock s /\
  st_fs (snd (load_data file s)) = st_fs s /\
  exists records,
    st_log (snd (load_data file s)) = st_log s ++ records /\
    (List.length records <= 1)%nat.
Proof.
  assert (K0 : forall r, load_data file s = (r, s) ->
               st_stock (snd (load_data file s)) = st_stock s /\
               st_fs (snd (load_data file s)) = st_fs s /\
               exists records,
                 st_log (snd (load_data file s)) = st_log s ++ records /\
                 (List.length records <= 1)%nat).
  { intros r ->. cbn [snd st_stock st_fs st_log].
    split; [reflexivity|]. split; [reflexivity|].
    exists []. split; [now rewrite app_nil_r | simpl; lia]. }
  assert (K1 : forall v r,
             load_data file s =
               (v, mkState (st_stock s) (st_log s ++ [r]) (st_fs s)) ->
             st_stock (snd (load_data file s)) = st_stock s /\
             st_fs (snd (load_data file s)) = st_fs s /\
             exists records,
               st_log (snd (load_data file s)) = st_log s ++ records /\
               (List.length records <= 1)%nat).
  { intros v r ->. cbn [snd st_stock st_fs st_log].
    split; [reflexivity|]. split; [reflexivity|].
    exists [r]. split; [reflexivity | simpl; lia]. }
  destruct (st_fs s (file_or_default file)) as [c|content [|] w|] eqn:E.
  - exact (K1 _ _ (load_data_absent s file c E)).
  - destruct (utf8_decode content) as [text|] eqn:Hd.
    + pose proof (json_loads_total (translate_newlines text)) as Ht.
      destruct (json_loads (translate_newlines text)) as [v rest| |] eqn:Hj;
        [| |contradiction].
      * destruct (isinstance_dict v) eqn:Hv.
        -- exact (K0 _ (load_data_object s file _ _ _ _ _ E Hd Hj Hv)).
        -- exact (K1 _ _ (load_data_not_object s file _ _ _ _ _ E Hd Hj Hv)).
      * exact (K1 _ _ (load_data_malformed s file _ _ _ E Hd Hj)).
    + exact (K0 _ (load_data_undecodable s file _ _ E Hd)).
  - exact (K0 _ (load_data_unreadable s file _ _ E)).
  - exact (K0 _ (load_data_directory s file E)).
Qed.

(** What [load_data] returns depends on the file alone. *)
Lemma load_data_file_only s1 s2 file :
  st_fs s1 (file_or_default file) = st_fs s2 (file_or_default file) ->
  fst (load_data file s1) = fst (load_data file s2).
Proof.
  intros H. run_io. rewrite H.
  destruct (st_fs s2 (file_or_default file)) as [c|content [|] w|];
    try reflexivity.
  destruct (utf8_decode content) as [text|]; [|reflexivity].
  destruct (json_loads (translate_newlines text)) as [v rest| |];
    try reflexivity.
  run_io. now destruct (isinstance_dict v).
Qed.

(** X19: when the file cannot be opened for writing, [load_data] after the
    failed [save_data] returns what it would have returned before it. *)
Theorem failed_save_keeps_what_load_data_reads
  (s : state) (file : option (list N)) :
  can_write (st_fs s (file_or_default file)) = false ->
  fst ((save_data file ;; load_data file) s) = fst (load_data file s).
Proof.
  intros Hw. unfold bind.
  destruct (save_data_fails s file Hw) as (e & He & E). rewrite E.
  cbv beta iota. now apply load_data_file_only.
Qed.

Lemma failed_save_keeps_what_load_data_reads_witness :
  fst ((save_data None ;; load_data None) locked_state) =
  fst (load_data None locked_state).
Proof.
  apply (failed_save_keeps_what_load_data_reads locked_state None). reflexivity.
Defined.

(** X20: on a path that names no file, [load_data] returns the empty
    dictionary and logs one warning, nothing else changed. *)
Theorem load_data_missing_file (s : state) (file : option (list N)) (c : bool) :
  st_fs s (file_or_default file) = Absent c ->
  load_data file s =
  (Ret (PyDict []),
   mkState (st_stock s)
     (st_log s ++ [(WARNING, MsgNotFound (file_or_default file))]) (st_fs s)).
Proof. exact (load_data_absent s file c). Qed.

Lemma load_data_missing_file_witness :
  load_data None sample_state =
  (Ret (PyDict []),
   mkState (st_stock sample_state)
     (st_log sample_state ++ [(WARNING, MsgNotFound (file_or_default None))])
     (st_fs sample_state)).
Proof. apply (load_data_missing_file sample_state None true). reflexivity. Defined.



Lemma is_ws_small c : is_ws c = true -> (c < 128)%N /\ c <> 0xFEFF%N.
Proof.
  unfold is_ws. rewrite !orb_true_iff, !N.eqb_eq.
  intros [[[-> | ->] | ->] | ->]; split; (reflexivity || discriminate).
Qed.

Lemma utf8_decode_blank content :
  forallb blank_byte content = true ->
  utf8_decode content = Some (map Byte.to_N content).
Proof.
  induction content as [|b content IH]; [reflexivity|].
  cbn [forallb]. intros H. apply andb_true_iff in H. destruct H as [Hb Hc].
  cbn [utf8_decode map]. rewrite (IH Hc).
  destruct (is_ws_small _ Hb) as [Hlt _].
  replace (Byte.to_N b <? 0x80)%N with true; [reflexivity|].
  symmetry. now apply N.ltb_lt.
Qed.

Lemma translate_newlines_blank n :
  forall s, (List.length s <= n)%nat ->
            forallb is_ws s = true ->
            forallb is_ws (translate_newlines s) = true.
Proof.
  induction n as [|n IH]; intros s Hn H.
  - destruct s; [reflexivity | simpl in Hn; lia].
  - destruct s as [|c s']; [reflexivity|].
    cbn [forallb] in H. apply andb_true_iff in H. destruct H as [Hc Hs].
    simpl in Hn. cbn [translate_newlines].
    destruct (c =? 13)%N.
    + cbn [forallb is_ws N.eqb Pos.eqb orb andb].
      destruct s' as [|c' s'']; [reflexivity|].
      cbn [forallb] in Hs. apply andb_true_iff in Hs. destruct Hs as [Hc' Hs'].
      destruct (c' =? 10)%N.
      * apply IH; [simpl in Hn; lia | exact Hs'].
      * apply IH; [simpl in *; lia|]. cbn [forallb]. now rewrite Hc', Hs'.
    + cbn [forallb]. rewrite Hc. apply IH; [lia | exact Hs].
Qed.

Lemma skip_ws_blank s : forallb is_ws s = true -> skip_ws s = [].
Proof.
  induction s as [|c s IH]; [reflexivity|]. cbn [forallb skip_ws].
  intros H. apply andb_true_iff in H. destruct H as [-> Hs]. now apply IH.
Qed.

Lemma json_loads_blank s : forallb is_ws s = true -> json_loads s = Malformed.
Proof.
  intros H. unfold json_loads.
  assert (Hb : starts_with_bom s = false).
  { destruct s as [|c s']; [reflexivity|]. cbn [forallb] in H.
    apply andb_true_iff in H. destruct H as [Hc _].
    apply N.eqb_neq. now apply is_ws_small. }
  now rewrite Hb, (skip_ws_blank _ H).
Qed.

(** X22: on a readable file that is empty or holds white space only,
    [load_data] returns the empty dictionary and logs a decoding error. *)
Theorem load_data_blank_file
  (s : state) (file : option (list N)) (content : list byte) (w : bool) :
  st_fs s (file_or_default file) = Regular content true w ->
  forallb blank_byte content = true ->
  load_data file s =
  (Ret (PyDict []),
   mkState (st_stock s)
     (st_log s ++ [(ERROR, MsgDecodeError (file_or_default file))]) (st_fs s)).
Proof.
  intros E Hb.
  apply (load_data_malformed s file content w (map Byte.to_N content) E).
  - now apply utf8_decode_blank.
  - apply json_loads_blank.
    apply (translate_newlines_blank _ _ (le_n _)).
    unfold blank_byte in Hb. clear E.
    induction content as [|b content IH]; [reflexivity|].
    cbn [forallb map] in Hb |- *. apply andb_true_iff in Hb.
    destruct Hb as [-> Hc]. now apply IH.
Qed.

Lemma load_data_blank_file_witness :
  load_data None
    (mkState [] [] (fs_update fresh_fs default_file (Regular [] true true))) =
  (Ret (PyDict []),
   mkState [] [(ERROR, MsgDecodeError default_file)]
     (fs_update fresh_fs default_file (Regular [] true true))).
Proof.
  apply (load_data_blank_file
           (mkState [] []
              (fs_update fresh_fs default_file (Regular [] true true)))
           None [] true); reflexivity.
Defined.

(* ================================================================== *)
(** * The report *)

Lemma utf8_encode_app a b x y :
  utf8_encode a = Some x -> utf8_encode b = Some y ->
  utf8_encode (a ++ b) = Some (x ++ y).
Proof.
  revert x. induction a as [|c a IH]; intros x Ha Hb; simpl in *.
  - injection Ha as <-. exact Hb.
  - destruct (utf8_encode_char c) as [bs|]; [|discriminate].
    destruct (utf8_encode a) as [bs'|]; [|discriminate].
    injection Ha as <-. rewrite (IH _ eq_refl Hb). now rewrite app_assoc.
Qed.

Lemma utf8_encode_text s :
  is_text s = true -> exists bs, utf8_encode s = Some bs.
Proof.
  induction s as [|c s IH]; [now exists []|]. cbn [is_text forallb].
  intros H. apply andb_true_iff in H. destruct H as [Hc Hs].
  destruct (IH Hs) as [bs' E]. cbn [utf8_encode]. rewrite E.
  unfold is_scalar_value in Hc. apply andb_true_iff in Hc.
  destruct Hc as [Hmax Hsur]. apply negb_true_iff in Hsur.
  unfold utf8_encode_char. rewrite Hsur, Hmax.
  destruct (c <? 128)%N; [eexists; reflexivity|].
  destruct (c <? 2048)%N; [eexists; reflexivity|].
  destruct (c <? 65536)%N; eexists; reflexivity.
Qed.

Lemma is_text_app a b : is_text (a ++ b) = is_text a && is_text b.
Proof. apply forallb_app. Qed.

Lemma int_repr_text z : is_text (int_repr z) = true.
Proof.
  apply forallb_forall. intros c Hc.
  pose proof (int_repr_plain z) as Hp. rewrite Forall_forall in Hp.
  specialize (Hp c Hc). unfold is_scalar_value, is_surrogate.
  apply andb_true_iff. split.
  - apply N.leb_le. destruct Hp; lia.
  - apply negb_true_iff. apply andb_false_iff. left. apply N.leb_gt.
    destruct Hp; lia.
Qed.

Lemma report_line_text item qty :
  is_text item = true -> is_text (report_line item qty ++ [10%N]) = true.
Proof.
  intros H. unfold report_line.
  rewrite !is_text_app, H, int_repr_text. reflexivity.
Qed.

Lemma py_print_text text out :
  is_text (text ++ [10%N]) = true ->
  exists bs,
    utf8_encode (text ++ [10%N]) = Some bs /\
    py_print text out = (Ret tt, out ++ bs).
Proof.
  intros H. destruct (utf8_encode_text _ H) as [bs E].
  exists bs. split; [exact E|]. unfold py_print. now rewrite E.
Qed.

Lemma print_items_text items :
  Forall (fun e => is_text (fst e) = true) items ->
  forall out,
  exists bs,
    utf8_encode
      (flat_map (fun e => report_line (fst e) (snd e) ++ [10%N]) items) = Some bs /\
    print_items items out = (Ret tt, out ++ bs).
Proof.
  induction 1 as [|[item qty] items Hk _ IH]; intros out.
  - exists []. split; [reflexivity | now rewrite app_nil_r].
  - cbn [print_items flat_map fst snd]. unfold obind.
    destruct (py_print_text _ out (report_line_text item qty Hk))
      as (b1 & E1 & P1).
    rewrite P1. destruct (IH (out ++ b1)) as (b2 & E2 & P2).
    rewrite P2. exists (b1 ++ b2).
    split; [now apply utf8_encode_app | now rewrite app_assoc].
Qed.

(** X23: when the item names are Unicode text, [print_data] returns normally
    and adds to standard output the UTF-8 encoding of the report: a blank line
    and the header, the placeholder for an empty dictionary or one line [name
    -> quantity] for each entry in iteration order, the footer and a blank
    line. *)
Theorem print_data_report (stock : dict Z) (out : list byte) :
  forallb is_text (dict_keys stock) = true ->
  exists bs,
    utf8_encode (report_text stock) = Some bs /\
    print_data stock out = (Ret tt, out ++ bs).
Proof.
  intros Ht. apply keys_text in Ht. unfold print_data, report_text, obind.
  destruct (py_print_text (10%N :: str_of "--- Items Report ---") out eq_refl)
    as (bh & Eh & Ph).
  rewrite Ph.
  assert (Hbody : exists bb,
             utf8_encode
               (match stock with
                | [] => str_of "Inventory is empty." ++ [10%N]
                | _ :: _ =>
                    flat_map (fun e => report_line (fst e) (snd e) ++ [10%N])
                      stock
                end) = Some bb /\
             (match stock with
              | [] => py_print (str_of "Inventory is empty.")
              | _ :: _ => print_items stock
              end) (out ++ bh) = (Ret tt, (out ++ bh) ++ bb)).
  { destruct stock as [|e stock'].
    - exact (py_print_text (str_of "Inventory is empty.") (out ++ bh) eq_refl).
    - exact (print_items_text _ Ht (out ++ bh)). }
  destruct Hbody as (bb & Eb & Pb). rewrite Pb.
  destruct (py_print_text (str_of "--------------------" ++ [10%N])
              ((out ++ bh) ++ bb) eq_refl) as (bf & Ef & Pf).
  rewrite Pf. exists (bh ++ bb ++ bf). split.
  - apply (utf8_encode_app _ _ _ _ Eh).
    apply (utf8_encode_app _ _ _ _ Eb). exact Ef.
  - now rewrite <- !app_assoc.
Qed.

Lemma print_data_report_witness :
  exists bs,
    utf8_encode (report_text (st_stock sample_state)) = Some bs /\
    print_data (st_stock sample_state) [] = (Ret tt, [] ++ bs).
Proof. apply (print_data_report (st_stock sample_state) []). reflexivity. Defined.

Lemma appends_print text : appends (py_print text).
Proof.
  intros out. unfold py_print.
  destruct (utf8_encode (text ++ [10%N])) as [bs|];
    [now exists bs | exists []; now rewrite app_nil_r].
Qed.

Lemma appends_obind {A B} (m : O A) (f : A -> O B) :
  appends m -> (forall a, appends (f a)) -> appends (obind m f).
Proof.
  intros Hm Hf out. unfold obind. destruct (Hm out) as [b1 E1].
  destruct (m out) as [[a|e] out1]; simpl in E1; subst out1.
  - destruct (Hf a (out ++ b1)) as [b2 E2]. exists (b1 ++ b2).
    now rewrite E2, app_assoc.
  - now exists b1.
Qed.

Lemma appends_print_items items : appends (print_items items).
Proof.
  induction items as [|[item qty] items IH].
  - intros out. exists []. now rewrite app_nil_r.
  - cbn [print_items]. apply appends_obind; [apply appends_print | auto].
Qed.

(** X24: whatever the dictionary, and also when a name cannot be encoded and
    [print] raises, [print_data] only adds to what standard output already
    holds. *)
Theorem print_data_only_appends (stock : dict Z) : appends (print_data stock).
Proof.
  unfold print_data.
  apply appends_obind; [apply appends_print|]. intros _.
  apply appends_obind; [|intros _; apply appends_print].
  destruct stock; [apply appends_print | apply appends_print_items].
Qed.
